(** * Outgoing TChannel connections: a model of [tchannel/outgoing.py]

    The development follows the source file class by class.

    - [Py]: the fragment of Python the file relies on: exceptions, a state
      monad with exceptions (a raised exception keeps the mutations made
      before it), [assert], [try]/[except].
    - [Futures]: the futures the connection hands out ([tchannel/futures.py]
      is not part of the sources under study).
    - [OutOps]: the class [TChannelOutOps], one connection with its sender
      and receiver loops.
    - [Registry]: the class [OutgoingTChannel], the pool of connections.
    - [Threads]: [close] together with the two threads it joins.

    Python objects that are shared and compared by identity (futures,
    connections) live in a store and are named by their index in it. *)

From Stdlib Require Import ZArith List String Ascii Lia Sorted.
From stdpp Require Import base option list gmap strings.

Local Open Scope string_scope.
Local Open Scope list_scope.

(** Python 2 [str] values sent over the wire. *)
Definition bytes : Type := list Byte.byte.

(* ===================================================================== *)
(** * Python fragment *)
(* ===================================================================== *)

Module Py.

(** The exception classes that occur in the file.  [SocketTimeout] is
    [socket.timeout], a subclass of [socket.error] ([SocketError]);
    [QueueEmpty] is [Queue.Empty]; [Exception] stands for any other class,
    by name. *)
Inductive exn : Type :=
| AssertionError (msg : string)
| AttributeError (attr : string)
| KeyError (key : Z)
| SocketError (msg : string)
| SocketTimeout
| QueueEmpty
| TChannelApplicationException (code : Z) (arg_1 arg_2 arg_3 : bytes)
| Exception (name : string).

(** [isinstance(e, socket.error)] *)
Definition is_socket_error (e : exn) : bool :=
  match e with
  | SocketError _ | SocketTimeout => true
  | _ => false
  end.

(** [isinstance(e, socket.timeout)] *)
Definition is_socket_timeout (e : exn) : bool :=
  match e with
  | SocketTimeout => true
  | _ => false
  end.

(** [isinstance(e, Queue.Empty)] *)
Definition is_queue_empty (e : exn) : bool :=
  match e with
  | QueueEmpty => true
  | _ => false
  end.

(** How a call ends: it returns a value, it raises, or it has not returned
    (a blocking call that is still waiting, a loop that is still running when
    the observation stops). *)
Inductive res (A : Type) : Type :=
| Ok (a : A)
| Raise (e : exn)
| Waiting.
Arguments Ok {A} a.
Arguments Raise {A} e.
Arguments Waiting {A}.

(** Computations over a mutable state [S]. *)
Definition M (S A : Type) : Type := S -> S * res A.

Definition ret {S A} (a : A) : M S A := fun s => (s, Ok a).

Definition bind {S A B} (m : M S A) (k : A -> M S B) : M S B :=
  fun s =>
    match m s with
    | (s', Ok a) => k a s'
    | (s', Raise e) => (s', Raise e)
    | (s', Waiting) => (s', Waiting)
    end.

Definition raise {S A} (e : exn) : M S A := fun s => (s, Raise e).

Definition wait {S A} : M S A := fun s => (s, Waiting).

Definition gets {S A} (f : S -> A) : M S A := fun s => (s, Ok (f s)).

Definition modify {S} (f : S -> S) : M S unit := fun s => (f s, Ok tt).

(** [try: m  except <class>: h] where [handles] decides the class. *)
Definition try_except {S A} (m : M S A) (handles : exn -> bool) (h : M S A)
  : M S A :=
  fun s =>
    match m s with
    | (s', Raise e) => if handles e then h s' else (s', Raise e)
    | r => r
    end.

(** [assert cond, msg]: the message is an expression that is evaluated only
    when the condition fails, and evaluating it can itself raise. *)
Definition assert_ {S} (cond : bool) (msg : M S string) : M S unit :=
  if cond then ret tt
  else bind msg (fun m => raise (AssertionError m)).

Module Notations.
Declare Scope py_scope.
Delimit Scope py_scope with py.
Notation "'do' x <- m ; k" := (bind m (fun x => k))
  (at level 10, x name, m at level 100, k at level 200, only parsing)
  : py_scope.
Notation "m ;;; k" := (bind m (fun _ => k))
  (at level 100, k at level 200, only parsing, right associativity)
  : py_scope.
End Notations.

End Py.

Import Py Py.Notations.
Local Open Scope py_scope.

(* ===================================================================== *)
(** * Messages and futures *)
(* ===================================================================== *)

(** Modelled from the spec: [tchannel/messages.py] is missing.  A call
    request is the three-argument message the call contract constructs; a
    response carries [(statusCode, arg1, arg2, arg3)]. *)
Record CallRequestMessage : Type := mkCallRequest {
  req_arg_1 : bytes;
  req_arg_2 : bytes;
  req_arg_3 : bytes
}.

Record Response : Type := mkResponse {
  code : Z;
  arg_1 : bytes;
  arg_2 : bytes;
  arg_3 : bytes
}.

Module Futures.

(** Modelled from the spec: [tchannel/futures.py] ([SettableFuture],
    [transform_future]) is missing.  A future is a single-resolution cell
    that ends with a response or with a failure; [transform_future f fn] is
    a new future that ends with [fn]'s value, or with the exception [fn]
    raises, once [f] ends with a response, and with [f]'s failure when [f]
    fails.  A future is named by its index in the store; the callbacks
    registered on a cell are the futures derived from it.  Propagation goes
    one level deep: the program never derives a future from a derived one. *)
Inductive outcome : Type :=
| Result (r : Response)
| Failure (e : exn).

Record cell : Type := mkCell {
  fstate : option outcome;
  fcallbacks : list (nat * (Response -> res Response))
}.

Abbreviation heap := (list cell).

(** [SettableFuture()] *)
Definition new_future (h : heap) : nat * heap :=
  (length h, h ++ [mkCell None []]).

Definition settle (r : nat) (o : outcome) (h : heap) : heap :=
  match h !! r with
  | Some c => <[r := mkCell (Some o) (fcallbacks c)]> h
  | None => h
  end.

Definition run_callback (o : outcome) (h : heap)
    (cb : nat * (Response -> res Response)) : heap :=
  match o with
  | Result v =>
      match snd cb v with
      | Ok v' => settle (fst cb) (Result v') h
      | Raise e => settle (fst cb) (Failure e) h
      | Waiting => h
      end
  | Failure e => settle (fst cb) (Failure e) h
  end.

Definition resolve (r : nat) (o : outcome) (h : heap) : heap :=
  match h !! r with
  | Some c => foldl (run_callback o) (settle r o h) (fcallbacks c)
  | None => h
  end.

(** [future.set_result(v)] *)
Definition set_result (r : nat) (v : Response) (h : heap) : heap :=
  resolve r (Result v) h.

(** [future.set_exception(e)] *)
Definition set_exception (r : nat) (e : exn) (h : heap) : heap :=
  resolve r (Failure e) h.

(** [transform_future(src, fn)] *)
Definition transform_future (src : nat) (fn : Response -> res Response)
    (h : heap) : nat * heap :=
  let t := length h in
  let h1 := h ++ [mkCell None []] in
  match h1 !! src with
  | Some c =>
      match fstate c with
      | None => (t, <[src := mkCell None (fcallbacks c ++ [(t, fn)])]> h1)
      | Some o => (t, run_callback o h1 (t, fn))
      end
  | None => (t, h1)
  end.

(** [future.result()]: blocks while the future is pending. *)
Definition result (r : nat) (h : heap) : res Response :=
  match h !! r with
  | Some c =>
      match fstate c with
      | Some (Result v) => Ok v
      | Some (Failure e) => Raise e
      | None => Waiting
      end
  | None => Waiting
  end.

End Futures.

(* ===================================================================== *)
(** * [TChannelOutOps]: one outgoing connection *)
(* ===================================================================== *)

Module OutOps.

(** [class State(enum.IntEnum)] *)
Module State.
Inductive t : Type := init | ready | closed.

Definition value (s : t) : Z :=
  match s with init => 0 | ready => 1 | closed => 2 end.

Definition eqb (a b : t) : bool := (value a =? value b)%Z.

#[global] Instance eq_dec : EqDecision t.
Proof. solve_decision. Defined.
End State.

(** [Request = namedtuple('Request', 'message, future')]; the future is
    the shared object, named by its index in the store. *)
Record Request : Type := mkRequest {
  message : option CallRequestMessage;
  future : nat
}.

(** What [SocketConnection.await()] finds on the wire. *)
Inductive inbound : Type :=
| InFrame (message_id : Z) (msg : Response)
| InEndOfStream
| InRaise (e : exn).

(** The context object [await()] returns for a decoded frame. *)
Record Context : Type := mkContext {
  ctx_message_id : Z;
  ctx_message : Response
}.

Inductive handshake_reply : Type := InitResponse.

(** Modelled from the spec: [tchannel/socket.py] ([SocketConnection]) is
    missing, and the socket itself is the operating system's.  The socket
    carries the script of its peer: the frames that will arrive, and which
    calls at the codec boundary ([initiateHandshake], [awaitHandshakeReply],
    [frameAndWrite]) and which [close()] will raise. *)
Record Socket : Type := mkSocket {
  fileno : nat;
  sock_open : bool;
  rx : list inbound;
  initiate_raises : option exn;
  reply_raises : option exn;
  write_raises : CallRequestMessage -> Z -> option exn;
  close_raises : option exn
}.

(** The [on_close] argument of the constructor, as data: the default
    [lambda x: x], or [partial(registry._on_conn_close, host, port)]. *)
Inductive on_close_cb : Type :=
| CbIdentity
| CbEvict (host : string) (port : Z).

(** What the connection does to the objects it shares with its two threads
    and to the outside, in program order. *)
Inductive event : Type :=
| EvInitiateHandshake (host_port process_name : string)
| EvAwaitHandshakeReply
| EvFrameAndWrite (msg : CallRequestMessage) (message_id : Z)
| EvSetState (s : State.t)
| EvPut (r : option Request)
| EvJoinSender
| EvJoinReceiver
| EvSockClose
| EvOnClose.

(** The attributes of one [TChannelOutOps] object, the futures it holds
    references to, and the log of its actions. *)
Record conn : Type := mkConn {
  _name : string;
  _sock : Socket;
  _state : State.t;
  _outstanding : list (option Request);
  _on_close : on_close_cb;
  _id_counter : Z;
  _futures : gmap Z nat;
  heap : Futures.heap;
  trace : list event
}.

Definition with_sock (f : Socket -> Socket) (c : conn) : conn :=
  mkConn (_name c) (f (_sock c)) (_state c) (_outstanding c) (_on_close c)
         (_id_counter c) (_futures c) (heap c) (trace c).
Definition with_state (s : State.t) (c : conn) : conn :=
  mkConn (_name c) (_sock c) s (_outstanding c) (_on_close c)
         (_id_counter c) (_futures c) (heap c) (trace c).
Definition with_outstanding (q : list (option Request)) (c : conn) : conn :=
  mkConn (_name c) (_sock c) (_state c) q (_on_close c)
         (_id_counter c) (_futures c) (heap c) (trace c).
Definition with_id_counter (n : Z) (c : conn) : conn :=
  mkConn (_name c) (_sock c) (_state c) (_outstanding c) (_on_close c)
         n (_futures c) (heap c) (trace c).
Definition with_futures (m : gmap Z nat) (c : conn) : conn :=
  mkConn (_name c) (_sock c) (_state c) (_outstanding c) (_on_close c)
         (_id_counter c) m (heap c) (trace c).
Definition with_heap (h : Futures.heap) (c : conn) : conn :=
  mkConn (_name c) (_sock c) (_state c) (_outstanding c) (_on_close c)
         (_id_counter c) (_futures c) h (trace c).
Definition with_trace (t : list event) (c : conn) : conn :=
  mkConn (_name c) (_sock c) (_state c) (_outstanding c) (_on_close c)
         (_id_counter c) (_futures c) (heap c) t.

Definition with_rx (l : list inbound) (s : Socket) : Socket :=
  mkSocket (fileno s) (sock_open s) l (initiate_raises s) (reply_raises s)
           (write_raises s) (close_raises s).
Definition with_sock_open (b : bool) (s : Socket) : Socket :=
  mkSocket (fileno s) b (rx s) (initiate_raises s) (reply_raises s)
           (write_raises s) (close_raises s).

(** ** Primitive actions *)

Definition log (e : event) : M conn unit :=
  modify (fun c => with_trace (trace c ++ [e]) c).

Definition raise_if {A} (o : option exn) (k : M conn A) : M conn A :=
  match o with
  | Some e => raise e
  | None => k
  end.

(** [self._state = s] *)
Definition set_state (s : State.t) : M conn unit :=
  modify (with_state s) ;;; log (EvSetState s).

(** [self._outstanding.put(x)]: the queue is unbounded, [put] never blocks. *)
Definition queue_put (x : option Request) : M conn unit :=
  modify (fun c => with_outstanding (_outstanding c ++ [x]) c) ;;;
  log (EvPut x).

(** [self._outstanding.get(timeout=self._timeout)]: with nothing queued the
    timeout elapses and [Queue.Empty] is raised. *)
Definition queue_get : M conn (option Request) :=
  do q <- gets _outstanding;
  match q with
  | [] => raise QueueEmpty
  | x :: rest => modify (with_outstanding rest) ;;; ret x
  end.

(** [self._conn.initiate_handshake({...})] *)
Definition initiate_handshake (host_port process_name : string)
  : M conn unit :=
  log (EvInitiateHandshake host_port process_name) ;;;
  do sk <- gets _sock;
  raise_if (initiate_raises sk) (ret tt).

(** [self._conn.await_handshake_reply()] *)
Definition await_handshake_reply : M conn handshake_reply :=
  log EvAwaitHandshakeReply ;;;
  do sk <- gets _sock;
  raise_if (reply_raises sk) (ret InitResponse).

(** [self._conn.frame_and_write(msg, message_id=msg_id)] *)
Definition frame_and_write (msg : CallRequestMessage) (message_id : Z)
  : M conn unit :=
  log (EvFrameAndWrite msg message_id) ;;;
  do sk <- gets _sock;
  raise_if (write_raises sk msg message_id) (ret tt).

(** [self._conn.await()]: the next frame, [None] at end of stream (also
    once the socket is closed), [socket.timeout] when nothing arrives. *)
Definition await : M conn (option Context) :=
  do sk <- gets _sock;
  if negb (sock_open sk) then ret None
  else
    match rx sk with
    | [] => raise SocketTimeout
    | InFrame i m :: rest =>
        modify (with_sock (with_rx rest)) ;;; ret (Some (mkContext i m))
    | InEndOfStream :: _ => ret None
    | InRaise e :: rest =>
        modify (with_sock (with_rx rest)) ;;; raise e
    end.

(** [self._sock.close()] *)
Definition sock_close : M conn unit :=
  log EvSockClose ;;;
  do sk <- gets _sock;
  raise_if (close_raises sk) (modify (with_sock (with_sock_open false))).

(** [self._sender.join()], [self._receiver.join()], as steps of the calling
    thread; what the joined thread does until the call returns is followed
    in [Threads]. *)
Definition join_sender : M conn unit := log EvJoinSender.
Definition join_receiver : M conn unit := log EvJoinReceiver.

(** ** Methods *)

(** [_submit(self, message, future)] *)
Definition _submit (msg : option CallRequestMessage) (fut : nat)
  : M conn unit :=
  queue_put (Some (mkRequest msg fut)).

(** [_next_message_id(self)]; the lock makes the two statements atomic. *)
Definition _next_message_id : M conn Z :=
  modify (fun c => with_id_counter (_id_counter c + 1)%Z c) ;;;
  gets _id_counter.

(** [n] calls of [_next_message_id] in a row, with what each returned. *)
Fixpoint allocate (n : nat) : M conn (list Z) :=
  match n with
  | O => ret []
  | S k =>
      do i <- _next_message_id;
      do rest <- allocate k;
      ret (i :: rest)
  end.

(** [closed(self)] *)
Definition closed : M conn bool :=
  gets (fun c => State.eqb (_state c) State.closed).

Inductive ctl : Type := Continue | Break.

(** [while not self.closed(): body].  [fuel] bounds the number of rounds
    observed; a loop that has neither left nor raised by then is still
    running. *)
Fixpoint while_not_closed (fuel : nat) (body : M conn ctl) : M conn unit :=
  do c <- closed;
  if c : bool then ret tt
  else
    match fuel with
    | O => wait
    | S n =>
        do k <- body;
        match k with
        | Break => ret tt
        | Continue => while_not_closed n body
        end
    end.

(** One round of [_start_sender]. *)
Definition sender_body : M conn ctl :=
  do r <- try_except (do x <- queue_get; ret (Some x)) is_queue_empty
            (ret None);
  match r with
  | None => ret Continue
  | Some None => ret Break
  | Some (Some request) =>
      match message request with
      | None => ret Break
      | Some msg =>
          do msg_id <- _next_message_id;
          modify (fun c =>
            with_futures (<[msg_id := future request]> (_futures c)) c) ;;;
          frame_and_write msg msg_id ;;;
          ret Continue
      end
  end.

(** [_start_sender(self)] *)
Definition _start_sender (fuel : nat) : M conn unit :=
  while_not_closed fuel sender_body.

(** One round of [_start_receiver]. *)
Definition receiver_body : M conn ctl :=
  do r <- try_except (do x <- await; ret (Some x)) is_socket_timeout
            (ret None);
  match r with
  | None => ret Continue
  | Some None => ret Break
  | Some (Some ctx) =>
      do fs <- gets _futures;
      match fs !! ctx_message_id ctx with
      | None => raise (KeyError (ctx_message_id ctx))
      | Some fut =>
          modify (fun c =>
            with_heap (Futures.set_result fut (ctx_message ctx) (heap c)) c) ;;;
          ret Continue
      end
  end.

(** [_start_receiver(self)] *)
Definition _start_receiver (fuel : nat) : M conn unit :=
  while_not_closed fuel receiver_body.

(** [handshake(self)].  The assertion message reads [self.host] and
    [self.port], attributes the class never sets: when the assertion fails,
    building the message raises [AttributeError]. *)
Definition handshake : M conn (option handshake_reply) :=
  do st <- gets _state;
  assert_ (negb (State.eqb st State.closed))
          (raise (AttributeError "host")) ;;;
  if negb (State.eqb st State.init) then ret None
  else
    do name <- gets _name;
    initiate_handshake "0.0.0.0:0" name ;;;
    do resp <- await_handshake_reply;
    set_state State.ready ;;;
    ret (Some resp).

(** The closure [handle_response] of [send]. *)
Definition handle_response (response : Response) : res Response :=
  if negb (code response =? 0)%Z then
    Raise (TChannelApplicationException
             (code response) (arg_1 response) (arg_2 response)
             (arg_3 response))
  else Ok response.

(** What [send] hands back: the future when [async], else the response. *)
Inductive sent : Type :=
| Deferred (result_future : nat)
| Returned (response : Response).

(** [send(self, arg_1, arg_2, arg_3, service=None, async=False)].
    In blocking mode the caller is suspended in [result()]; [during] is what
    the connection's threads do to the object in the meantime. *)
Definition send (arg1 arg2 arg3 : bytes) (service : option string)
    (async : bool) (during : conn -> conn) : M conn sent :=
  do st <- gets _state;
  assert_ (State.eqb st State.ready)
          (ret "Handshake not performed or connection closed") ;;;
  let msg := mkCallRequest arg1 arg2 arg3 in
  do fut <- (fun c => let (r, h) := Futures.new_future (heap c) in
                      (with_heap h c, Ok r));
  _submit (Some msg) fut ;;;
  do result_future <-
    (fun c => let (r, h) := Futures.transform_future fut handle_response
                              (heap c) in
              (with_heap h c, Ok r));
  if async then ret (Deferred result_future)
  else
    modify during ;;;
    do response <- (fun c => (c, Futures.result result_future (heap c)));
    ret (Returned response).

(** The state [send] leaves behind once the request is queued. *)
Definition queued (c : conn) (arg1 arg2 arg3 : bytes) : conn :=
  let fut := length (heap c) in
  let request := mkRequest (Some (mkCallRequest arg1 arg2 arg3)) fut in
  mkConn (_name c) (_sock c) (_state c)
         (_outstanding c ++ [Some request]) (_on_close c) (_id_counter c)
         (_futures c)
         (heap c ++ [Futures.mkCell None [(S fut, handle_response)];
                     Futures.mkCell None []])
         (trace c ++ [EvPut (Some request)]).

(** What the two threads do while a caller that has just queued a request
    waits, when the peer answers that request with [response]: the sender
    takes the request off the queue and writes it, the receiver reads the
    answer, which carries the identifier the sender assigned. *)
Definition serve (response : Response) (c : conn) : conn :=
  let c1 := fst (_start_sender 1 c) in
  let c2 := with_sock (with_rx [InFrame (_id_counter c1) response]) c1 in
  fst (_start_receiver 1 c2).

(** The connection after the statements of [close] that come before the
    callback: [sk] is the socket as [close()] left it, [tail] what was done
    after [close()] returned. *)
Definition shut_down (sk : Socket) (tail : list event) (c : conn) : conn :=
  mkConn (_name c) sk State.closed (_outstanding c ++ [None]) (_on_close c)
         (_id_counter c) (_futures c) (heap c)
         (trace c
          ++ [EvSetState State.closed; EvPut None; EvJoinSender; EvSockClose]
          ++ tail).

(** [__init__] up to the point where the object exists: the attributes as
    the constructor first sets them. *)
Definition fresh (name : string) (sock : Socket) (on_close : on_close_cb)
  : conn :=
  mkConn name sock State.init [] on_close 0%Z ∅ [] [].

(** [__init__(self, name, sock, on_close, perform_handshake)]: the object,
    or the exception the handshake raised. *)
Definition __init__ (name : string) (sock : Socket) (on_close : on_close_cb)
    (perform_handshake : bool) : conn * res unit :=
  (if perform_handshake then (handshake ;;; ret tt) else ret tt)
    (fresh name sock on_close).

End OutOps.

(* ===================================================================== *)
(** * [OutgoingTChannel]: the pool of connections *)
(* ===================================================================== *)

Module Registry.

(** What the registry does to sockets it has not handed to a connection. *)
Inductive event : Type :=
| EvSocket (fileno : nat) (host : string) (port : Z)
| EvDiscard (fileno : nat).

(** The attributes of the [OutgoingTChannel] object together with the store
    of the [TChannelOutOps] objects it has constructed: a connection is
    named by its index in [objs], and two connections are the same object
    ([is]) when they have the same index. *)
Record world : Type := mkWorld {
  _name : string;
  _connections : gmap (string * Z) nat;
  objs : list OutOps.conn;
  next_fileno : nat;
  trace : list event
}.

Definition with_connections (m : gmap (string * Z) nat) (w : world) : world :=
  mkWorld (_name w) m (objs w) (next_fileno w) (trace w).
Definition with_objs (l : list OutOps.conn) (w : world) : world :=
  mkWorld (_name w) (_connections w) l (next_fileno w) (trace w).
Definition with_next_fileno (n : nat) (w : world) : world :=
  mkWorld (_name w) (_connections w) (objs w) n (trace w).
Definition with_trace (t : list event) (w : world) : world :=
  mkWorld (_name w) (_connections w) (objs w) (next_fileno w) t.

Definition log (e : event) : M world unit :=
  modify (fun w => with_trace (trace w ++ [e]) w).

(** Run a method of the connection object [self] on the store. *)
Definition with_self {A} (self : nat) (m : M OutOps.conn A) : M world A :=
  fun w =>
    match objs w !! self with
    | Some c =>
        let (c', r) := m c in (with_objs (<[self := c']> (objs w)) w, r)
    | None => (w, Raise (Exception "ReferenceError"))
    end.

(** [_on_conn_close(self, host, port, connection)]; the body runs under
    [self._lock]. *)
Definition _on_conn_close (host : string) (port : Z) (connection : nat)
  : M world unit :=
  do conns <- gets _connections;
  match conns !! (host, port) with
  | Some mapped =>
      if Nat.eqb mapped connection
      then modify (fun w =>
             with_connections (delete (host, port) (_connections w)) w)
      else ret tt
  | None => ret tt
  end.

(** [self._on_close(self)] for the two closures a connection can hold. *)
Definition call_on_close (cb : OutOps.on_close_cb) (self : nat)
  : M world unit :=
  match cb with
  | OutOps.CbIdentity => ret tt
  | OutOps.CbEvict host port => _on_conn_close host port self
  end.

(** [TChannelOutOps.close(self, wait=True)].  It is stated over the store
    because its last statement calls the registry back. *)
Definition conn_close (self : nat) : M world unit :=
  do is_closed <- with_self self OutOps.closed;
  if is_closed : bool then ret tt
  else
    with_self self
      (OutOps.set_state OutOps.State.closed ;;;
       OutOps.queue_put None ;;;
       OutOps.join_sender ;;;
       OutOps.sock_close ;;;
       OutOps.join_receiver) ;;;
    do cb <- with_self self
               (OutOps.log OutOps.EvOnClose ;;; gets OutOps._on_close);
    call_on_close cb self.

(** The loop of [OutgoingTChannel.close]. *)
Fixpoint close_each (conns : list nat) : M world unit :=
  match conns with
  | [] => ret tt
  | conn :: rest =>
      try_except (conn_close conn) is_socket_error (ret tt) ;;;
      close_each rest
  end.

(** [OutgoingTChannel.close(self)]: in Python 2 [dict.values()] is a list,
    a snapshot taken before the first connection is closed. *)
Definition close : M world unit :=
  do conns <- gets (fun w => (map_to_list (_connections w)).*2);
  close_each conns.

Section Network.

(** The network: what [socket.socket()], [sock.connect((host, port))] and
    [sock.settimeout(...)] give the [n]-th time a socket is asked for. *)
Variable net : string -> Z -> nat -> exn + OutOps.Socket.

Definition with_fileno (n : nat) (s : OutOps.Socket) : OutOps.Socket :=
  OutOps.mkSocket n true (OutOps.rx s) (OutOps.initiate_raises s)
    (OutOps.reply_raises s) (OutOps.write_raises s) (OutOps.close_raises s).

(** First lines of [_get_connection]: the assertions and the lookup made
    without the lock. *)
Definition fast_path (host : string) (port : Z) : M world (option nat) :=
  assert_ (negb (String.eqb host "")) (ret "host is required") ;;;
  assert_ (negb (port =? 0)%Z) (ret "port is required") ;;;
  gets (fun w => _connections w !! (host, port)).

(** [sock = socket.socket(...); sock.connect(...); sock.settimeout(...)] *)
Definition open_socket (host : string) (port : Z) : M world OutOps.Socket :=
  do n <- gets next_fileno;
  modify (with_next_fileno (S n)) ;;;
  log (EvSocket n host port) ;;;
  match net host port n with
  | inl e => raise e
  | inr s => ret (with_fileno n s)
  end.

(** [sock.close()] on a socket no connection owns. *)
Definition discard (sock : OutOps.Socket) : M world unit :=
  log (EvDiscard (OutOps.fileno sock)) ;;;
  match OutOps.close_raises sock with
  | Some e => raise e
  | None => ret tt
  end.

(** [TChannelOutOps(name, sock, on_close=..., timeout=...)]: the new object
    enters the store when the constructor returns. *)
Definition construct (name : string) (sock : OutOps.Socket)
    (on_close : OutOps.on_close_cb) : M world nat :=
  fun w =>
    match OutOps.__init__ name sock on_close true with
    | (c, Ok _) => (with_objs (objs w ++ [c]) w, Ok (length (objs w)))
    | (_, Raise e) => (w, Raise e)
    | (_, Waiting) => (w, Waiting)
    end.

(** The [with self._lock:] block of [_get_connection]. *)
Definition locked_section (host : string) (port : Z) (sock : OutOps.Socket)
  : M world nat :=
  do conns <- gets _connections;
  match conns !! (host, port) with
  | Some existing => discard sock ;;; ret existing
  | None =>
      do name <- gets _name;
      do conn <- construct name sock (OutOps.CbEvict host port);
      modify (fun w =>
        with_connections (<[(host, port) := conn]> (_connections w)) w) ;;;
      ret conn
  end.

(** [_get_connection(self, host, port)] run without interruption. *)
Definition _get_connection (host : string) (port : Z) : M world nat :=
  do conn <- fast_path host port;
  match conn with
  | Some c => ret c
  | None =>
      do sock <- open_socket host port;
      locked_section host port sock
  end.

(** ** Callers running concurrently

    A caller of [_get_connection] is interrupted only between the lookup,
    the socket set-up and the locked block; a caller of a connection's
    [close] between the part that touches the connection alone and the
    callback. *)
Inductive thread : Type :=
| Enter (host : string) (port : Z)
| Missed (host : string) (port : Z)
| Opened (host : string) (port : Z) (sock : OutOps.Socket)
| Close (conn : nat)
| Callback (conn : nat)
| Done (r : res (option nat)).

Definition finish {A} (f : A -> thread) (m : M world A) (w : world)
  : world * thread :=
  match m w with
  | (w', Ok a) => (w', f a)
  | (w', Raise e) => (w', Done (Raise e))
  | (w', Waiting) => (w', Done Waiting)
  end.

Definition returns (r : nat) : thread := Done (Ok (Some r)).

(** The part of [conn_close] before the callback; [true] when the callback
    is due. *)
Definition close_prefix (self : nat) : M world bool :=
  do is_closed <- with_self self OutOps.closed;
  if is_closed : bool then ret false
  else
    with_self self
      (OutOps.set_state OutOps.State.closed ;;;
       OutOps.queue_put None ;;;
       OutOps.join_sender ;;;
       OutOps.sock_close ;;;
       OutOps.join_receiver) ;;;
    ret true.

Definition close_callback (self : nat) : M world unit :=
  do cb <- with_self self
             (OutOps.log OutOps.EvOnClose ;;; gets OutOps._on_close);
  call_on_close cb self.

(** One scheduling step of one caller. *)
Definition step (t : thread) (w : world) : world * thread :=
  match t with
  | Enter host port =>
      finish (fun o => match o with
                       | Some c => returns c
                       | None => Missed host port
                       end)
             (fast_path host port) w
  | Missed host port => finish (Opened host port) (open_socket host port) w
  | Opened host port sock => finish returns (locked_section host port sock) w
  | Close conn =>
      finish (fun due : bool => if due then Callback conn else Done (Ok None))
             (close_prefix conn) w
  | Callback conn => finish (fun _ => Done (Ok None)) (close_callback conn) w
  | Done r => (w, Done r)
  end.

(** A schedule names, step by step, the caller that runs next. *)
Fixpoint run (schedule : list nat) (w : world) (pool : list thread)
  : world * list thread :=
  match schedule with
  | [] => (w, pool)
  | i :: rest =>
      match pool !! i with
      | Some t => let (w', t') := step t w in run rest w' (<[i := t']> pool)
      | None => run rest w pool
      end
  end.

End Network.

(** [OutgoingTChannel(name)] *)
Definition __init__ (name : string) : res world :=
  if String.eqb name ""
  then Raise (AssertionError "A process name is required")
  else Ok (mkWorld name ∅ [] 0 []).

(** ** What a caller can see of the store *)

(** The connection [r] exists and is closed. *)
Definition closed_in (w : world) (r : nat) : Prop :=
  exists c, objs w !! r = Some c /\ OutOps._state c = OutOps.State.closed.

(** When the socket's [close()] raises, it raises a [socket.error]. *)
Definition raises_only_socket_errors (c : OutOps.conn) : Prop :=
  forall e,
    OutOps.close_raises (OutOps._sock c) = Some e -> is_socket_error e = true.

(** From [w] to [w'] every connection is still there, and is either
    untouched or closed. *)
Definition evolves (w w' : world) : Prop :=
  forall r c,
    objs w !! r = Some c ->
    exists c',
      objs w' !! r = Some c' /\
      (c' = c \/ OutOps._state c' = OutOps.State.closed).

(** Every connection the map holds exists and was built for its key, and
    every pooled connection that is not closed is the one the map holds for
    its key. *)
Definition consistent (w : world) : Prop :=
  (forall host port r,
     _connections w !! (host, port) = Some r ->
     exists c,
       objs w !! r = Some c /\ OutOps._on_close c = OutOps.CbEvict host port) /\
  (forall r c host port,
     objs w !! r = Some c ->
     OutOps._on_close c = OutOps.CbEvict host port ->
     OutOps._state c <> OutOps.State.closed ->
     _connections w !! (host, port) = Some r).

(** A caller that is about to run the callback of a connection has closed
    that connection. *)
Definition callbacks_closed (w : world) (pool : list thread) : Prop :=
  forall i r, pool !! i = Some (Callback r) -> closed_in w r.

(** A caller that has not started yet. *)
Definition entering (t : thread) : Prop :=
  match t with
  | Enter _ _ | Close _ => True
  | _ => False
  end.

End Registry.

(* ===================================================================== *)
(** * The remaining methods, and [tchannel/thrift/reflection.py] *)
(* ===================================================================== *)

(** The two [str] methods the sources use. *)
Module PyStr.

(** The text before the last [sep] of [s] and the text after it; [None]
    when [sep] does not occur. *)
Fixpoint rsplit_last (sep : Ascii.ascii) (s : string)
  : option (string * string) :=
  match s with
  | EmptyString => None
  | String c rest =>
      match rsplit_last sep rest with
      | Some (before, after) => Some (String c before, after)
      | None =>
          if Ascii.eqb c sep then Some (EmptyString, rest) else None
      end
  end.

(** [s.rsplit(sep, 1)] for a separator of one character. *)
Definition rsplit1 (sep : Ascii.ascii) (s : string) : list string :=
  match rsplit_last sep s with
  | Some (before, after) => [before; after]
  | None => [s]
  end.

(** [sep in s] *)
Fixpoint contains (sep : Ascii.ascii) (s : string) : bool :=
  match s with
  | EmptyString => false
  | String c rest => Ascii.eqb c sep || contains sep rest
  end.

End PyStr.

Module Channel.
Import Registry.

(** The [port] argument of [request]: left out ([None]), an integer, or a
    string. *)
Inductive port_arg : Type :=
| NoPort
| IntPort (n : Z)
| StrPort (s : string).

(** [not port] *)
Definition falsy (port : port_arg) : bool :=
  match port with
  | NoPort => true
  | IntPort n => (n =? 0)%Z
  | StrPort s => String.eqb s ""
  end.

Section Request.

Variable net : string -> Z -> nat -> exn + OutOps.Socket.

(** Python's built-in [int] on a string: the integer, or the [ValueError]
    it raises. *)
Variable py_int : string -> exn + Z.

(** [int(port)] *)
Definition int_of_port (port : port_arg) : M world Z :=
  match port with
  | NoPort => raise (Exception "TypeError")
  | IntPort n => ret n
  | StrPort s =>
      match py_int s with
      | inl e => raise e
      | inr n => ret n
      end
  end.

(** [request(self, host, port=None)]; unpacking a list of one element into
    [host, port] raises [ValueError]. *)
Definition request (host : string) (port : port_arg) : M world nat :=
  do target <-
    (if falsy port then
       match PyStr.rsplit1 ":"%char host with
       | [h; p] => ret (h, StrPort p)
       | _ => raise (Exception "ValueError")
       end
     else ret (host, port));
  do n <- int_of_port (snd target);
  _get_connection net (fst target) n.

End Request.

(** [TChannelOutOps.__del__(self)]: [close] under a bare [except]. *)
Definition conn_del (self : nat) : M world unit :=
  try_except (conn_close self) (fun _ => true) (ret tt).

(** [OutgoingTChannel.__del__(self)] *)
Definition __del__ : M world unit :=
  try_except close (fun _ => true) (ret tt).

(** [OutgoingTChannel.__exit__(self, *args)]; it returns [None], so an
    exception of the body is raised again after it. *)
Definition __exit__ : M world unit := close.

(** [with chan: body], [chan] being the registry: [__enter__] returns the
    registry itself, [__exit__] runs when the body returns or raises, and
    what [__exit__] raises replaces what the body raised. *)
Definition with_channel {A} (body : M world A) : M world A :=
  fun w =>
    match body w with
    | (w1, Ok a) =>
        match __exit__ w1 with
        | (w2, Ok _) => (w2, Ok a)
        | (w2, Raise e) => (w2, Raise e)
        | (w2, Waiting) => (w2, Waiting)
        end
    | (w1, Raise e) =>
        match __exit__ w1 with
        | (w2, Ok _) => (w2, Raise e)
        | (w2, Raise e') => (w2, Raise e')
        | (w2, Waiting) => (w2, Waiting)
        end
    | (w1, Waiting) => (w1, Waiting)
    end.

End Channel.

(** [tchannel/thrift/reflection.py] *)
Module Reflection.

(** [get_module_name(module)], the module being given by its [__name__]:
    [name.rsplit('.', 1)[-1]]. *)
Definition get_module_name (__name__ : string) : string :=
  List.last (PyStr.rsplit1 "."%char __name__) "".

End Reflection.

(** Words for the statements about the loops. *)
Module Scenarios.
Import OutOps.

(** The queue entries of requests given as message and future. *)
Definition queue_of (reqs : list (CallRequestMessage * nat))
  : list (option Request) :=
  map (fun r => Some (mkRequest (Some (fst r)) (snd r))) reqs.

(** The frames the sender writes for [reqs] when the counter stands at
    [counter]: the [i]-th request goes out under [counter + 1 + i]. *)
Definition frames_of (counter : Z) (reqs : list (CallRequestMessage * nat))
  : list event :=
  imap (fun i r => EvFrameAndWrite (fst r) (counter + 1 + Z.of_nat i)%Z) reqs.

(** Every identifier in the pending-call table has been handed out. *)
Definition table_below_counter (c : conn) : Prop :=
  forall k fut, _futures c !! k = Some fut -> (k <= _id_counter c)%Z.

End Scenarios.

(** Counting sockets: those the registry has opened, those it has
    discarded, and those callers hold while they wait for the lock. *)
Module Counting.
Import Registry.

Definition is_socket (e : event) : bool :=
  match e with EvSocket _ _ _ => true | EvDiscard _ => false end.

Definition is_discard (e : event) : bool :=
  match e with EvSocket _ _ _ => false | EvDiscard _ => true end.

Definition sockets_opened (t : list event) : nat :=
  length (List.filter is_socket t).

Definition sockets_discarded (t : list event) : nat :=
  length (List.filter is_discard t).

Definition holds_socket (t : thread) : nat :=
  match t with Opened _ _ _ => 1 | _ => 0 end.

Definition sockets_held (pool : list thread) : nat :=
  sum_list (map holds_socket pool).

(** A peer that acknowledges the handshake and a socket that closes
    without raising. *)
Definition well_behaved (s : OutOps.Socket) : Prop :=
  OutOps.initiate_raises s = None /\
  OutOps.reply_raises s = None /\
  OutOps.close_raises s = None.

(** Where a caller racing for [(host, port)] can be. *)
Definition racing_for (host : string) (port : Z) (t : thread) : Prop :=
  match t with
  | Enter h p | Missed h p => h = host /\ p = port
  | Opened h p s => h = host /\ p = port /\ well_behaved s
  | Done r => r = Ok (Some 0)
  | _ => False
  end.

(** The registry while callers race for [(host, port)] alone: nothing yet,
    or the one connection, object 0, under the key. *)
Definition one_or_none (host : string) (port : Z) (w : world) : Prop :=
  (_connections w = ∅ /\ objs w = []) \/
  (_connections w !! (host, port) = Some 0 /\ length (objs w) = 1).

End Counting.

(* ===================================================================== *)
(** * [close] and the two threads it joins *)
(* ===================================================================== *)

(** [Registry.conn_close] records the two [join()] calls as events.  This
    module follows the threads themselves through [close]: [join()] returns
    when the thread has left its loop, and what the thread does until then
    depends on where it stands when [close] begins. *)
Module Threads.
Import Registry.

(** Where the thread of a loop stands.  The constructor starts both threads
    before it returns, so each of them is at the test of its [while] (also
    when it has left the loop already), or inside a round, at the call that
    opens it: [get] for the sender, [await] for the receiver. *)
Inductive position : Type := AtTest | InRound.

(** What is left of [while not self.closed(): body] from [pos] on. *)
Definition resume (pos : position) (fuel : nat)
    (body : M OutOps.conn OutOps.ctl) : M OutOps.conn unit :=
  match pos with
  | AtTest => OutOps.while_not_closed fuel body
  | InRound =>
      do k <- body;
      match k with
      | OutOps.Break => ret tt
      | OutOps.Continue => OutOps.while_not_closed fuel body
      end
  end.

(** [thread.join()]: the caller waits until the thread has ended.  A thread
    ends when its target returns or raises; the exception ends the thread
    and does not reach the caller of [join()]. *)
Definition join (thread : M OutOps.conn unit) : M OutOps.conn unit :=
  fun c =>
    match thread c with
    | (c', Ok _) => (c', Ok tt)
    | (c', Raise _) => (c', Ok tt)
    | (c', Waiting) => (c', Waiting)
    end.

(** [self._sender.join()] *)
Definition join_sender (pos : position) (fuel : nat) : M OutOps.conn unit :=
  join (resume pos fuel OutOps.sender_body) ;;;
  OutOps.log OutOps.EvJoinSender.

(** [self._receiver.join()] *)
Definition join_receiver (pos : position) (fuel : nat) : M OutOps.conn unit :=
  join (resume pos fuel OutOps.receiver_body) ;;;
  OutOps.log OutOps.EvJoinReceiver.

(** [TChannelOutOps.close(self, wait=True)] with the sender at [sender] and
    the receiver at [receiver]. *)
Definition conn_close_at (sender receiver : position) (fuel : nat)
    (self : nat) : M world unit :=
  do is_closed <- with_self self OutOps.closed;
  if is_closed : bool then ret tt
  else
    with_self self
      (OutOps.set_state OutOps.State.closed ;;;
       OutOps.queue_put None ;;;
       join_sender sender fuel ;;;
       OutOps.sock_close ;;;
       join_receiver receiver fuel) ;;;
    do cb <- with_self self
               (OutOps.log OutOps.EvOnClose ;;; gets OutOps._on_close);
    call_on_close cb self.


End Threads.

(* ===================================================================== *)
(** * Concrete connections and registries *)
(* ===================================================================== *)

Module Examples.
Import OutOps.

(** A peer that acknowledges the handshake, accepts every frame and sends
    nothing. *)
Definition quiet_socket : Socket :=
  mkSocket 3 true [] None None (fun _ _ => None) None.

Definition conn_init : conn := fresh "client" quiet_socket CbIdentity.
Definition conn_ready : conn := with_state State.ready conn_init.
Definition conn_closed : conn := with_state State.closed conn_init.

(** The response of the spec's example: status code 1, arguments
    [b"e"], [b"f"], [b"g"]. *)
Definition response_efg (status : Z) : Response :=
  mkResponse status [Byte.x65] [Byte.x66] [Byte.x67].

(** A ready connection with no pending call on which a frame with
    identifier 7 arrives. *)
Definition conn_spurious : conn :=
  with_sock (with_rx [InFrame 7 (response_efg 0)]) conn_ready.

(** A codec that cannot encode anything, and a ready connection to it with
    two requests queued; futures 0 and 1 are theirs. *)
Definition encoding_error : exn := Exception "EncodingError".

Definition broken_codec : Socket :=
  mkSocket 3 true [] None None (fun _ _ => Some encoding_error) None.

Definition first_request : Request :=
  mkRequest (Some (mkCallRequest [Byte.x61] [] [])) 0.
Definition second_request : Request :=
  mkRequest (Some (mkCallRequest [Byte.x62] [] [])) 1.

Definition conn_two_queued : conn :=
  mkConn "client" broken_codec State.ready
         [Some first_request; Some second_request] CbIdentity 0%Z ∅
         [Futures.mkCell None []; Futures.mkCell None []] [].

(** A pooled connection to [localhost:4040], and a registry whose store
    holds two objects with the same attributes, the second of which is the
    one the map knows. *)
Definition pooled : conn :=
  with_state State.ready
    (fresh "client" quiet_socket (CbEvict "localhost" 4040%Z)).

Definition twin_world : Registry.world :=
  Registry.mkWorld "client" {[ ("localhost", 4040%Z) := 1 ]}
                   [pooled; pooled] 2 [].

(** A socket whose [close()] raises [socket.error], and one whose
    [close()] raises something else. *)
Definition stubborn_socket : Socket :=
  mkSocket 4 true [] None None (fun _ _ => None)
           (Some (SocketError "Bad file descriptor")).

Definition faulty_socket : Socket :=
  mkSocket 5 true [] None None (fun _ _ => None)
           (Some (Exception "RuntimeError")).

Definition pooled_at (port : Z) (sk : Socket) : conn :=
  with_state State.ready (fresh "client" sk (CbEvict "localhost" port)).

(** A registry that holds one connection and an object that is closed. *)
Definition world_with_closed : Registry.world :=
  Registry.mkWorld "client" {[ ("localhost", 4040%Z) := 0 ]}
                   [pooled_at 4040 stubborn_socket; conn_closed] 2 [].

(** Registries with two connections: to ports 4040 and 4041. *)
Definition world_of (first second : Socket) : Registry.world :=
  Registry.mkWorld "client"
    (<[("localhost", 4040%Z) := 0]> {[ ("localhost", 4041%Z) := 1 ]})
    [pooled_at 4040 first; pooled_at 4041 second] 2 [].

(** A network on which every connection attempt succeeds, three callers
    that ask for the same destination at the same time, and the schedule
    that lets each of them miss the fast path before any takes the lock. *)
Definition calm_net (host : string) (port : Z) (n : nat) : exn + Socket :=
  inr quiet_socket.

Definition three_callers : list Registry.thread :=
  [Registry.Enter "localhost" 4040; Registry.Enter "localhost" 4040;
   Registry.Enter "localhost" 4040].

Definition round_robin : list nat := [0; 1; 2; 0; 1; 2; 0; 1; 2].

Definition empty_world : Registry.world :=
  Registry.mkWorld "client" ∅ [] 0 [].

(** Two requests, as message and future, and ready connections with a
    given queue or a given wire. *)
Definition two_requests : list (CallRequestMessage * nat) :=
  [(mkCallRequest [Byte.x61] [] [], 0); (mkCallRequest [Byte.x62] [] [], 1)].

Definition conn_queued (q : list (option Request)) : conn :=
  with_outstanding q conn_ready.

Definition conn_wired (wire : list inbound) : conn :=
  with_sock (with_rx wire) conn_ready.

(** A connection that has handed out identifier 1, for future 0. *)
Definition conn_one_pending : conn :=
  with_futures (<[1%Z := 0]> ∅) (with_id_counter 1 conn_ready).

(** A peer that never acknowledges the handshake. *)
Definition mute_socket : Socket :=
  mkSocket 6 true [] None (Some SocketTimeout) (fun _ _ => None) None.

(** A stand-in for [int] that reads the one string the examples use. *)
Definition int_4040 (s : string) : exn + Z :=
  if String.eqb s "4040" then inr 4040%Z else inl (Exception "ValueError").

(** Networks on which connecting is refused, and on which the peer never
    acknowledges the handshake. *)
Definition refusing_net (host : string) (port : Z) (n : nat) : exn + Socket :=
  inl (SocketError "Connection refused").

Definition mute_net (host : string) (port : Z) (n : nat) : exn + Socket :=
  inr mute_socket.

(** The body of a [with] block that gets a connection and then raises. *)
Definition failing_body : M Registry.world nat :=
  do conn <- Registry._get_connection calm_net "localhost" 4040;
  raise (Exception "Boom").



End Examples.

(* ===================================================================== *)
(** * Properties of one connection *)
(* ===================================================================== *)

Module OutOpsFacts.
Import OutOps.

Lemma State_eqb_eq a b : State.eqb a b = true <-> a = b.
Proof. destruct a, b; cbv; split; congruence. Qed.

Lemma State_eqb_neq a b : State.eqb a b = false <-> a <> b.
Proof. destruct a, b; cbv; split; congruence. Qed.

(** Unfold one layer of the monad. *)
Ltac monad :=
  unfold bind, ret, raise, wait, gets, modify, try_except, assert_, raise_if;
  simpl.

(** ** The identifier allocator *)

Lemma _next_message_id_eq c :
  _next_message_id c
  = (with_id_counter (_id_counter c + 1)%Z c, Ok (_id_counter c + 1)%Z).
Proof. reflexivity. Qed.

Lemma allocate_above n : forall c,
  exists c' ids,
    allocate n c = (c', Ok ids) /\
    length ids = n /\
    Forall (fun i => (_id_counter c < i)%Z) ids /\
    StronglySorted Z.lt ids.
Proof.
  induction n as [|k IH]; intros c.
  - exists c, []. repeat split; constructor.
  - destruct (IH (with_id_counter (_id_counter c + 1)%Z c))
      as (c' & ids & Hrun & Hlen & Habove & Hsorted).
    exists c', ((_id_counter c + 1)%Z :: ids).
    split; [|split; [|split]].
    + simpl. unfold bind at 1. rewrite _next_message_id_eq.
      unfold bind at 1. rewrite Hrun. reflexivity.
    + simpl. congruence.
    + constructor; [lia|].
      eapply Forall_impl; [exact Habove|]. simpl. intros; lia.
    + constructor; [exact Hsorted|exact Habove].
Qed.

Lemma strictly_increasing_NoDup (l : list Z) :
  StronglySorted Z.lt l -> NoDup l.
Proof.
  induction 1 as [|a l Hs IH Hall]; constructor; auto.
  intros Hin. rewrite Forall_forall in Hall.
  apply Hall in Hin. lia.
Qed.

(** C5: [n] calls of [_next_message_id] on one connection all return, and
    the identifiers they return are strictly increasing, from the call
    before to the call after, hence pairwise distinct. *)
Theorem next_message_ids_strictly_increasing (c : conn) (n : nat) :
  exists c' ids,
    allocate n c = (c', Ok ids) /\
    length ids = n /\
    StronglySorted Z.lt ids /\
    NoDup ids.
Proof.
  destruct (allocate_above n c) as (c' & ids & Hrun & Hlen & _ & Hsorted).
  exists c', ids. eauto using strictly_increasing_NoDup.
Qed.

(** ** [send] before the handshake or after close *)

(** C4: on a connection whose state is not [ready], [send] raises the
    assertion error at once and leaves the object as it was: nothing is put
    on the outbound queue and no future is created. *)
Theorem send_requires_ready (c : conn) (arg1 arg2 arg3 : bytes)
    (service : option string) (async : bool) (during : conn -> conn) :
  _state c <> State.ready ->
  send arg1 arg2 arg3 service async during c
  = (c, Raise (AssertionError "Handshake not performed or connection closed")).
Proof.
  intros Hstate. apply State_eqb_neq in Hstate.
  unfold send. monad. rewrite Hstate. reflexivity.
Qed.

(** ** [handshake] *)

(** C6: on a [ready] connection [handshake] returns [None] and changes
    nothing, so no handshake call reaches the codec; on a [closed]
    connection it raises, again without reaching the codec. *)
Theorem handshake_idempotent (c : conn) :
  (_state c = State.ready -> handshake c = (c, Ok None)) /\
  (_state c = State.closed -> exists e, handshake c = (c, Raise e)).
Proof.
  split; intros Hstate.
  - unfold handshake. monad. rewrite Hstate. reflexivity.
  - exists (AttributeError "host").
    unfold handshake. monad. rewrite Hstate. reflexivity.
Qed.

(** ** The receiver loop and frames nobody waits for *)

Lemma receiver_round c fuel :
  _state c <> State.closed ->
  _start_receiver (S fuel) c
  = match receiver_body c with
    | (c', Ok Continue) => _start_receiver fuel c'
    | (c', Ok Break) => (c', Ok tt)
    | (c', Raise e) => (c', Raise e)
    | (c', Waiting) => (c', Waiting)
    end.
Proof.
  intros Hstate. apply State_eqb_neq in Hstate.
  unfold _start_receiver. simpl. unfold bind at 1, closed, gets.
  rewrite Hstate. unfold bind at 1.
  destruct (receiver_body c) as [c' [[|]|e|]]; reflexivity.
Qed.

(** C1, as the code has it: a frame whose identifier has no entry in
    [_futures] makes the receiver loop raise [KeyError]: the loop ends
    there.  The table and the futures are left as they were. *)
Theorem receiver_unknown_id_raises (c : conn) (i : Z) (m : Response)
    (rest : list inbound) (fuel : nat) :
  _state c <> State.closed ->
  sock_open (_sock c) = true ->
  rx (_sock c) = InFrame i m :: rest ->
  _futures c !! i = None ->
  _start_receiver (S fuel) c
  = (with_sock (with_rx rest) c, Raise (KeyError i)).
Proof.
  intros Hstate Hopen Hrx Hmissing.
  rewrite receiver_round by exact Hstate.
  unfold receiver_body, await. monad.
  rewrite Hopen. simpl. rewrite Hrx. simpl.
  rewrite Hmissing. reflexivity.
Qed.

Lemma receiver_unknown_id_raises_witness :
  _start_receiver 1 Examples.conn_spurious
  = (with_sock (with_rx []) Examples.conn_spurious, Raise (KeyError 7)).
Proof.
  apply (receiver_unknown_id_raises Examples.conn_spurious 7
           (Examples.response_efg 0) [] 0).
  - discriminate.
  - reflexivity.
  - reflexivity.
  - reflexivity.
Defined.

(** ** The sender loop and a codec that raises *)

Lemma sender_round c fuel :
  _state c <> State.closed ->
  _start_sender (S fuel) c
  = match sender_body c with
    | (c', Ok Continue) => _start_sender fuel c'
    | (c', Ok Break) => (c', Ok tt)
    | (c', Raise e) => (c', Raise e)
    | (c', Waiting) => (c', Waiting)
    end.
Proof.
  intros Hstate. apply State_eqb_neq in Hstate.
  unfold _start_sender. simpl. unfold bind at 1, closed, gets.
  rewrite Hstate. unfold bind at 1.
  destruct (sender_body c) as [c' [[|]|e|]]; reflexivity.
Qed.

(** What one round of the sender does with a genuine request. *)
Lemma sender_body_request c request msg rest :
  _outstanding c = Some request :: rest ->
  message request = Some msg ->
  let msg_id := (_id_counter c + 1)%Z in
  let c' :=
    mkConn (_name c) (_sock c) (_state c) rest (_on_close c) msg_id
           (<[msg_id := future request]> (_futures c)) (heap c)
           (trace c ++ [EvFrameAndWrite msg msg_id]) in
  sender_body c
  = (c', match write_raises (_sock c) msg msg_id with
         | Some e => Raise e
         | None => Ok Continue
         end).
Proof.
  intros Hqueue Hmsg. unfold sender_body, queue_get. monad.
  rewrite Hqueue. simpl. rewrite Hmsg. simpl.
  unfold frame_and_write, log. monad.
  destruct (write_raises (_sock c) msg (_id_counter c + 1)); reflexivity.
Qed.

(** C2, as the code has it: when [frame_and_write] raises for a request
    taken off the queue, the exception leaves the sender loop, which ends
    there.  The request's future is already in the pending-call table under
    the new identifier; no future is failed or resolved, and the requests
    behind it stay on the queue. *)
Theorem sender_write_error_propagates (c : conn) (request : Request)
    (msg : CallRequestMessage) (rest : list (option Request)) (e : exn)
    (fuel : nat) :
  _state c <> State.closed ->
  _outstanding c = Some request :: rest ->
  message request = Some msg ->
  write_raises (_sock c) msg (_id_counter c + 1)%Z = Some e ->
  exists c',
    _start_sender (S fuel) c = (c', Raise e) /\
    _outstanding c' = rest /\
    _futures c' = <[(_id_counter c + 1)%Z := future request]> (_futures c) /\
    heap c' = heap c.
Proof.
  intros Hstate Hqueue Hmsg Hraise.
  rewrite sender_round by exact Hstate.
  rewrite (sender_body_request c request msg rest Hqueue Hmsg).
  simpl. rewrite Hraise. eexists. split; [reflexivity|]. simpl. auto.
Qed.

Lemma sender_write_error_propagates_witness :
  exists c',
    _start_sender 3 Examples.conn_two_queued
    = (c', Raise Examples.encoding_error) /\
    _outstanding c' = [Some Examples.second_request] /\
    _futures c' = <[1%Z := 0]> ∅ /\
    heap c' = heap Examples.conn_two_queued.
Proof.
  apply (sender_write_error_propagates Examples.conn_two_queued
           Examples.first_request (mkCallRequest [Byte.x61] [] [])
           [Some Examples.second_request] Examples.encoding_error 2).
  - discriminate.
  - reflexivity.
  - reflexivity.
  - reflexivity.
Defined.

(** C2 as the spec states it fails: with two requests queued and a codec
    that raises on the first, the loop ends with the exception, the first
    request's future (future 0) is still pending, not failed, and the second
    request is never taken off the queue. *)
Lemma sender_write_error_counterexample :
  snd (_start_sender 3 Examples.conn_two_queued)
    = Raise Examples.encoding_error /\
  Futures.result 0 (heap (fst (_start_sender 3 Examples.conn_two_queued)))
    = Waiting /\
  _outstanding (fst (_start_sender 3 Examples.conn_two_queued))
    = [Some Examples.second_request] /\
  ~ (exists c',
       (_start_sender 3 Examples.conn_two_queued = (c', Waiting) \/
        _start_sender 3 Examples.conn_two_queued = (c', Ok tt)) /\
       Futures.result 0 (heap c') = Raise Examples.encoding_error).
Proof.
  assert (Hrun : exists c', _start_sender 3 Examples.conn_two_queued
                   = (c', Raise Examples.encoding_error) /\
                   _outstanding c' = [Some Examples.second_request] /\
                   heap c' = heap Examples.conn_two_queued).
  { rewrite (sender_round Examples.conn_two_queued 2) by discriminate.
    rewrite (sender_body_request Examples.conn_two_queued
               Examples.first_request (mkCallRequest [Byte.x61] [] [])
               [Some Examples.second_request]) by reflexivity.
    simpl. eexists. split; [reflexivity|]. split; reflexivity. }
  destruct Hrun as (c' & Hrun & Hq & Hheap).
  rewrite Hrun. simpl. rewrite Hheap, Hq.
  repeat split.
  intros (c'' & [H | H] & _); discriminate.
Qed.

(** ** [send] and the status code of the response *)

Lemma transform_future_fresh (h : Futures.heap) fn :
  Futures.transform_future (length h) fn (h ++ [Futures.mkCell None []])
  = (S (length h),
     h ++ [Futures.mkCell None [(S (length h), fn)]; Futures.mkCell None []]).
Proof.
  unfold Futures.transform_future.
  rewrite lookup_app_l by (rewrite length_app; simpl; lia).
  rewrite list_lookup_middle by reflexivity. simpl.
  rewrite length_app. simpl. rewrite Nat.add_1_r.
  rewrite <- app_assoc. simpl.
  rewrite insert_app_r_alt by lia.
  rewrite Nat.sub_diag. reflexivity.
Qed.

Lemma send_deferred_eq c arg1 arg2 arg3 service during :
  _state c = State.ready ->
  send arg1 arg2 arg3 service true during c
  = (queued c arg1 arg2 arg3, Ok (Deferred (S (length (heap c))))).
Proof.
  intros Hstate. unfold send, _submit, queue_put, log. monad.
  rewrite Hstate. simpl.
  rewrite transform_future_fresh. reflexivity.
Qed.

Lemma send_blocking_eq c arg1 arg2 arg3 service during :
  _state c = State.ready ->
  send arg1 arg2 arg3 service false during c
  = (during (queued c arg1 arg2 arg3),
     match Futures.result (S (length (heap c)))
             (heap (during (queued c arg1 arg2 arg3))) with
     | Ok r => Ok (Returned r)
     | Raise e => Raise e
     | Waiting => Waiting
     end).
Proof.
  intros Hstate. unfold send, _submit, queue_put, log. monad.
  rewrite Hstate. simpl.
  rewrite transform_future_fresh. simpl.
  fold (queued c arg1 arg2 arg3).
  destruct (Futures.result _ _); reflexivity.
Qed.

Lemma settle_present (h : Futures.heap) r o c :
  h !! r = Some c ->
  Futures.settle r o h
  = <[r := Futures.mkCell (Some o) (Futures.fcallbacks c)]> h.
Proof. intros H. unfold Futures.settle. rewrite H. reflexivity. Qed.

(** Setting the response on a call's future ends the future derived from
    it with what [handle_response] makes of the response. *)
Lemma set_result_reaches_derived (h : Futures.heap) (fut rf : nat)
    (response : Response) :
  fut <> rf ->
  h !! fut = Some (Futures.mkCell None [(rf, handle_response)]) ->
  h !! rf = Some (Futures.mkCell None []) ->
  Futures.result rf (Futures.set_result fut response h)
  = handle_response response.
Proof.
  intros Hne Hfut Hrf.
  assert (Hlt : rf < length h) by (eapply lookup_lt_Some; eauto).
  unfold Futures.set_result, Futures.resolve. rewrite Hfut. simpl.
  rewrite (settle_present h fut _ _ Hfut). simpl.
  unfold Futures.run_callback. simpl.
  assert (Hrf' : forall x : Futures.cell,
            <[fut := x]> h !! rf = Some (Futures.mkCell None [])).
  { intros x. rewrite list_lookup_insert_ne by exact Hne. exact Hrf. }
  destruct (handle_response response) as [v|e|] eqn:Hresp.
  - rewrite (settle_present _ rf _ _ (Hrf' _)).
    unfold Futures.result.
    rewrite list_lookup_insert_eq by (rewrite length_insert; exact Hlt).
    reflexivity.
  - rewrite (settle_present _ rf _ _ (Hrf' _)).
    unfold Futures.result.
    rewrite list_lookup_insert_eq by (rewrite length_insert; exact Hlt).
    reflexivity.
  - unfold handle_response in Hresp.
    destruct (negb (code response =? 0)%Z); discriminate.
Qed.

(** C3: on a ready connection [send] queues the request and, in deferred
    mode, returns the derived future [rf].  Once the call's future [fut] is
    given the response, whatever happened to the other futures meanwhile: a
    non-zero status code makes [rf] fail, and the blocking [send] raise,
    with [TChannelApplicationException] carrying that code and the three
    arguments of the response; a zero status code makes [rf] end with, and
    the blocking [send] return, the response itself. *)
Theorem send_resolves_by_status_code (c : conn) (arg1 arg2 arg3 : bytes)
    (service : option string) (response : Response) :
  _state c = State.ready ->
  let fut := length (heap c) in
  let rf := S (length (heap c)) in
  let failure :=
    TChannelApplicationException (code response) (arg_1 response)
      (arg_2 response) (arg_3 response) in
  exists c1,
    (forall during,
       send arg1 arg2 arg3 service true during c = (c1, Ok (Deferred rf))) /\
    _outstanding c1
      = _outstanding c
        ++ [Some (mkRequest (Some (mkCallRequest arg1 arg2 arg3)) fut)] /\
    (forall h,
       h !! fut = heap c1 !! fut -> h !! rf = heap c1 !! rf ->
       (code response <> 0%Z ->
        Futures.result rf (Futures.set_result fut response h)
        = Raise failure) /\
       (code response = 0%Z ->
        Futures.result rf (Futures.set_result fut response h)
        = Ok response)) /\
    (forall during h,
       h !! fut = heap c1 !! fut -> h !! rf = heap c1 !! rf ->
       heap (during c1) = Futures.set_result fut response h ->
       (code response <> 0%Z ->
        snd (send arg1 arg2 arg3 service false during c) = Raise failure) /\
       (code response = 0%Z ->
        snd (send arg1 arg2 arg3 service false during c)
        = Ok (Returned response))).
Proof.
  intros Hstate fut rf failure.
  exists (queued c arg1 arg2 arg3).
  assert (Hfut : heap (queued c arg1 arg2 arg3) !! fut
                 = Some (Futures.mkCell None [(rf, handle_response)])).
  { simpl. apply list_lookup_middle. reflexivity. }
  assert (Hrf : heap (queued c arg1 arg2 arg3) !! rf
                = Some (Futures.mkCell None [])).
  { simpl. rewrite lookup_app_r by (unfold rf; lia).
    replace (rf - length (heap c)) with 1 by (unfold rf; lia). reflexivity. }
  assert (Hdeliver : forall h,
            h !! fut = heap (queued c arg1 arg2 arg3) !! fut ->
            h !! rf = heap (queued c arg1 arg2 arg3) !! rf ->
            Futures.result rf (Futures.set_result fut response h)
            = handle_response response).
  { intros h H1 H2. apply set_result_reaches_derived.
    - unfold fut, rf. lia.
    - congruence.
    - congruence. }
  assert (Hnonzero : code response <> 0%Z ->
            handle_response response = Raise failure).
  { intros Hcode. unfold handle_response.
    apply Z.eqb_neq in Hcode. rewrite Hcode. reflexivity. }
  assert (Hzero : code response = 0%Z ->
            handle_response response = Ok response).
  { intros Hcode. unfold handle_response. rewrite Hcode. reflexivity. }
  split; [|split; [|split]].
  - intros during. apply send_deferred_eq. exact Hstate.
  - reflexivity.
  - intros h H1 H2. rewrite (Hdeliver h H1 H2). auto.
  - intros during h H1 H2 Hduring.
    rewrite send_blocking_eq by exact Hstate. simpl.
    fold rf. rewrite Hduring, (Hdeliver h H1 H2).
    split; intros Hcode.
    + rewrite (Hnonzero Hcode). reflexivity.
    + rewrite (Hzero Hcode). reflexivity.
Qed.

Lemma send_requires_ready_witness :
  send [] [] [] None false (fun c => c) Examples.conn_closed
  = (Examples.conn_closed,
     Raise (AssertionError "Handshake not performed or connection closed")).
Proof.
  apply (send_requires_ready Examples.conn_closed [] [] [] None false
           (fun c => c)).
  discriminate.
Defined.

Lemma handshake_idempotent_witness :
  handshake Examples.conn_ready = (Examples.conn_ready, Ok None) /\
  exists e, handshake Examples.conn_closed = (Examples.conn_closed, Raise e).
Proof.
  split.
  - apply (proj1 (handshake_idempotent Examples.conn_ready)). reflexivity.
  - apply (proj2 (handshake_idempotent Examples.conn_closed)). reflexivity.
Defined.

(** The spec's example run through the two loops: the response with status
    code 1 and arguments [b"e"], [b"f"], [b"g"] makes the blocking [send]
    raise the application error with that code and those arguments; status
    code 0 makes it return the response. *)
Lemma send_resolves_by_status_code_witness :
  snd (send [] [] [] None false (serve (Examples.response_efg 1))
         Examples.conn_ready)
  = Raise (TChannelApplicationException 1 [Byte.x65] [Byte.x66] [Byte.x67]) /\
  snd (send [] [] [] None false (serve (Examples.response_efg 0))
         Examples.conn_ready)
  = Ok (Returned (Examples.response_efg 0)).
Proof.
  split.
  - destruct (send_resolves_by_status_code Examples.conn_ready [] [] [] None
                (Examples.response_efg 1) eq_refl)
      as (c1 & Hdeferred & _ & _ & Hblocking).
    specialize (Hdeferred (fun c => c)).
    rewrite send_deferred_eq in Hdeferred by reflexivity.
    injection Hdeferred as <-.
    apply (Hblocking (serve (Examples.response_efg 1))
             (heap (queued Examples.conn_ready [] [] []))).
    + reflexivity.
    + reflexivity.
    + reflexivity.
    + discriminate.
  - destruct (send_resolves_by_status_code Examples.conn_ready [] [] [] None
                (Examples.response_efg 0) eq_refl)
      as (c1 & Hdeferred & _ & _ & Hblocking).
    specialize (Hdeferred (fun c => c)).
    rewrite send_deferred_eq in Hdeferred by reflexivity.
    injection Hdeferred as <-.
    apply (Hblocking (serve (Examples.response_efg 0))
             (heap (queued Examples.conn_ready [] [] []))).
    + reflexivity.
    + reflexivity.
    + reflexivity.
    + reflexivity.
Defined.

(** ** A whole round trip *)

(** A loop observed for no round at all on an open connection is still
    running. *)
Lemma loop_still_running (body : M conn ctl) (c : conn) :
  _state c <> State.closed ->
  while_not_closed 0 body c = (c, Waiting).
Proof.
  intros Hstate. apply State_eqb_neq in Hstate.
  simpl. unfold bind, closed, gets. rewrite Hstate. reflexivity.
Qed.

Lemma sender_still_running (c : conn) :
  _state c <> State.closed -> _start_sender 0 c = (c, Waiting).
Proof. apply loop_still_running. Qed.

Lemma receiver_still_running (c : conn) :
  _state c <> State.closed -> _start_receiver 0 c = (c, Waiting).
Proof. apply loop_still_running. Qed.

(** The sender and the receiver, one round each, give the response to the
    future of the request that was queued. *)
Lemma serve_delivers (c : conn) (request : Request) (msg : CallRequestMessage)
    (response : Response) :
  _state c <> State.closed ->
  _outstanding c = [Some request] ->
  message request = Some msg ->
  write_raises (_sock c) msg (_id_counter c + 1)%Z = None ->
  sock_open (_sock c) = true ->
  heap (serve response c)
  = Futures.set_result (future request) response (heap c).
Proof.
  intros Hstate Hqueue Hmsg Hwrite Hopen.
  assert (Hopen' : State.eqb (_state c) State.closed = false)
    by (apply State_eqb_neq; exact Hstate).
  unfold serve.
  rewrite sender_round by exact Hstate.
  rewrite (sender_body_request c request msg [] Hqueue Hmsg).
  cbv zeta. rewrite Hwrite.
  rewrite sender_still_running by exact Hstate.
  cbn [fst _id_counter].
  rewrite receiver_round by exact Hstate.
  unfold receiver_body, await. monad. rewrite Hopen. simpl.
  rewrite lookup_insert_eq.
  rewrite receiver_still_running by exact Hstate.
  reflexivity.
Qed.

(** X19: the blocking [send] on an idle, ready connection whose peer answers:
    the call returns the response when its status code is zero and raises
    the application error otherwise. *)
Lemma send_round_trip (c : conn) (arg1 arg2 arg3 : bytes)
    (service : option string) (response : Response) :
  _state c = State.ready ->
  _outstanding c = [] ->
  sock_open (_sock c) = true ->
  write_raises (_sock c) (mkCallRequest arg1 arg2 arg3) (_id_counter c + 1)%Z
    = None ->
  snd (send arg1 arg2 arg3 service false (serve response) c)
  = if (code response =? 0)%Z then Ok (Returned response)
    else Raise (TChannelApplicationException (code response)
                  (arg_1 response) (arg_2 response) (arg_3 response)).
Proof.
  intros Hstate Hqueue Hopen Hwrite.
  rewrite send_blocking_eq by exact Hstate. cbn [snd].
  rewrite (serve_delivers (queued c arg1 arg2 arg3)
             (mkRequest (Some (mkCallRequest arg1 arg2 arg3))
                        (length (heap c)))
             (mkCallRequest arg1 arg2 arg3) response).
  - rewrite set_result_reaches_derived.
    + unfold handle_response.
      destruct (code response =? 0)%Z; reflexivity.
    + cbn [future]. lia.
    + cbn [future heap queued]. apply list_lookup_middle. reflexivity.
    + cbn [heap queued]. rewrite lookup_app_r by lia.
      replace (S (length (heap c)) - length (heap c)) with 1 by lia.
      reflexivity.
  - cbn [_state queued]. rewrite Hstate. discriminate.
  - cbn [_outstanding queued]. rewrite Hqueue. reflexivity.
  - reflexivity.
  - exact Hwrite.
  - exact Hopen.
Qed.

End OutOpsFacts.

(* ===================================================================== *)
(** * Properties of the pool *)
(* ===================================================================== *)

Module RegistryFacts.
Import Registry.
Import OutOpsFacts.

Lemma with_objs_same (w : world) : with_objs (objs w) w = w.
Proof. destruct w; reflexivity. Qed.

Lemma with_self_run {A} (w : world) (self : nat) (c c' : OutOps.conn)
    (m : M OutOps.conn A) (r : res A) :
  objs w !! self = Some c ->
  m c = (c', r) ->
  with_self self m w = (with_objs (<[self := c']> (objs w)) w, r).
Proof.
  intros Hself Hm. unfold with_self. rewrite Hself, Hm. reflexivity.
Qed.

Lemma with_self_read {A} (w : world) (self : nat) (c : OutOps.conn)
    (f : OutOps.conn -> A) :
  objs w !! self = Some c ->
  with_self self (gets f) w = (w, Ok (f c)).
Proof.
  intros Hself.
  rewrite (with_self_run w self c c (gets f) (Ok (f c)) Hself eq_refl).
  rewrite list_insert_id by exact Hself.
  rewrite with_objs_same. reflexivity.
Qed.

(** ** The close callback *)

(** C10: the callback removes the entry of [(host, port)] exactly when the
    entry is the very connection that closed, compared by identity (the
    index in the store), whatever the attributes of the two objects; an
    entry that holds another connection stays, and so does everything when
    the key has no entry. *)
Theorem on_conn_close_removes_same_object (w : world) (host : string)
    (port : Z) (connection : nat) :
  (_connections w !! (host, port) = Some connection ->
   _on_conn_close host port connection w
   = (with_connections (delete (host, port) (_connections w)) w, Ok tt)) /\
  (forall other,
     _connections w !! (host, port) = Some other ->
     other <> connection ->
     _on_conn_close host port connection w = (w, Ok tt)) /\
  (_connections w !! (host, port) = None ->
   _on_conn_close host port connection w = (w, Ok tt)).
Proof.
  unfold _on_conn_close. monad.
  split; [|split].
  - intros ->. rewrite Nat.eqb_refl. reflexivity.
  - intros other -> Hne. apply Nat.eqb_neq in Hne. rewrite Hne. reflexivity.
  - intros ->. reflexivity.
Qed.

Lemma on_conn_close_removes_same_object_witness :
  _on_conn_close "localhost" 4040 1 Examples.twin_world
  = (with_connections
       (delete ("localhost", 4040%Z) (_connections Examples.twin_world))
       Examples.twin_world, Ok tt) /\
  objs Examples.twin_world !! 0 = objs Examples.twin_world !! 1 /\
  _on_conn_close "localhost" 4040 0 Examples.twin_world
  = (Examples.twin_world, Ok tt) /\
  _on_conn_close "localhost" 8080 1 Examples.twin_world
  = (Examples.twin_world, Ok tt).
Proof.
  split; [|split; [|split]].
  - apply (proj1 (on_conn_close_removes_same_object Examples.twin_world
                    "localhost" 4040 1)).
    reflexivity.
  - reflexivity.
  - apply (proj1 (proj2 (on_conn_close_removes_same_object
                           Examples.twin_world "localhost" 4040 0)) 1).
    + reflexivity.
    + discriminate.
  - apply (proj2 (proj2 (on_conn_close_removes_same_object
                           Examples.twin_world "localhost" 8080 1))).
    reflexivity.
Defined.

(** ** Closing one connection *)

(** The statements of [close] that touch the connection alone. *)
Lemma close_statements (c : OutOps.conn) :
  (OutOps.set_state OutOps.State.closed ;;;
   OutOps.queue_put None ;;;
   OutOps.join_sender ;;;
   OutOps.sock_close ;;;
   OutOps.join_receiver) c
  = match OutOps.close_raises (OutOps._sock c) with
    | None =>
        (OutOps.shut_down (OutOps.with_sock_open false (OutOps._sock c))
           [OutOps.EvJoinReceiver] c, Ok tt)
    | Some e => (OutOps.shut_down (OutOps._sock c) [] c, Raise e)
    end.
Proof.
  unfold OutOps.set_state, OutOps.queue_put, OutOps.join_sender,
    OutOps.sock_close, OutOps.join_receiver, OutOps.log.
  monad.
  destruct (OutOps.close_raises (OutOps._sock c)); simpl;
    unfold OutOps.with_trace, OutOps.with_sock, OutOps.shut_down; simpl;
    rewrite <- !app_assoc; reflexivity.
Qed.

Lemma conn_close_closed (w : world) (self : nat) (c : OutOps.conn) :
  objs w !! self = Some c ->
  OutOps._state c = OutOps.State.closed ->
  conn_close self w = (w, Ok tt).
Proof.
  intros Hself Hstate. unfold conn_close, OutOps.closed.
  unfold bind at 1. rewrite (with_self_read w self c _ Hself).
  rewrite Hstate. reflexivity.
Qed.

Lemma conn_close_raises (w : world) (self : nat) (c : OutOps.conn) e :
  objs w !! self = Some c ->
  OutOps._state c <> OutOps.State.closed ->
  OutOps.close_raises (OutOps._sock c) = Some e ->
  conn_close self w
  = (with_objs (<[self := OutOps.shut_down (OutOps._sock c) [] c]> (objs w)) w,
     Raise e).
Proof.
  intros Hself Hstate Hraise. apply State_eqb_neq in Hstate.
  unfold conn_close, OutOps.closed.
  unfold bind at 1. rewrite (with_self_read w self c _ Hself).
  rewrite Hstate. unfold bind at 1.
  erewrite with_self_run;
    [|exact Hself|rewrite close_statements, Hraise; reflexivity].
  reflexivity.
Qed.

Lemma conn_close_completes (w : world) (self : nat) (c : OutOps.conn) :
  objs w !! self = Some c ->
  OutOps._state c <> OutOps.State.closed ->
  OutOps.close_raises (OutOps._sock c) = None ->
  conn_close self w
  = call_on_close (OutOps._on_close c) self
      (with_objs
         (<[self := OutOps.shut_down
                      (OutOps.with_sock_open false (OutOps._sock c))
                      [OutOps.EvJoinReceiver; OutOps.EvOnClose] c]> (objs w))
         w).
Proof.
  intros Hself Hstate Hraise. apply State_eqb_neq in Hstate.
  assert (Hlt : self < length (objs w)) by (eapply lookup_lt_Some; eauto).
  unfold conn_close, OutOps.closed.
  unfold bind at 1. rewrite (with_self_read w self c _ Hself).
  rewrite Hstate. unfold bind at 1.
  erewrite with_self_run;
    [|exact Hself|rewrite close_statements, Hraise; reflexivity].
  unfold bind at 1.
  erewrite with_self_run;
    [|simpl; apply list_lookup_insert_eq; exact Hlt|reflexivity].
  simpl. rewrite list_insert_insert_eq.
  unfold OutOps.shut_down, with_objs. simpl.
  rewrite <- !app_assoc. reflexivity.
Qed.

(** ** Closing the pool *)

Lemma evolves_refl w : evolves w w.
Proof. intros r c Hr. exists c. auto. Qed.

Lemma evolves_trans w1 w2 w3 : evolves w1 w2 -> evolves w2 w3 -> evolves w1 w3.
Proof.
  intros H12 H23 r c Hr.
  destruct (H12 r c Hr) as (c2 & Hr2 & Hc2).
  destruct (H23 r c2 Hr2) as (c3 & Hr3 & Hc3).
  exists c3. split; [exact Hr3|].
  destruct Hc3 as [-> | Hclosed]; auto.
Qed.

Lemma evolves_closed_in w w' r :
  evolves w w' -> closed_in w r -> closed_in w' r.
Proof.
  intros Hev (c & Hr & Hclosed).
  destruct (Hev r c Hr) as (c' & Hr' & [Heq | Hc']);
    exists c'; subst; auto.
Qed.

Lemma evolves_update (w : world) (self : nat) (c' : OutOps.conn) :
  OutOps._state c' = OutOps.State.closed ->
  self < length (objs w) ->
  evolves w (with_objs (<[self := c']> (objs w)) w).
Proof.
  intros Hclosed Hlt r c Hr. simpl.
  destruct (decide (self = r)) as [<- | Hne].
  - exists c'. rewrite list_lookup_insert_eq by exact Hlt. auto.
  - exists c. rewrite list_lookup_insert_ne by exact Hne. auto.
Qed.

(** The callback returns, and touches the map only. *)
Lemma call_on_close_returns (cb : OutOps.on_close_cb) (self : nat) (w : world) :
  exists conns,
    call_on_close cb self w = (with_connections conns w, Ok tt) /\
    (forall k r, conns !! k = Some r -> _connections w !! k = Some r).
Proof.
  destruct cb as [|host port]; simpl.
  - exists (_connections w). split; [destruct w; reflexivity|auto].
  - unfold _on_conn_close. monad.
    destruct (_connections w !! (host, port)) as [mapped|] eqn:Hmapped.
    + destruct (Nat.eqb mapped self).
      * exists (delete (host, port) (_connections w)).
        split; [reflexivity|]. intros k r Hk.
        apply lookup_delete_Some in Hk. tauto.
      * exists (_connections w). split; [destruct w; reflexivity|auto].
    + exists (_connections w). split; [destruct w; reflexivity|auto].
Qed.

(** One round of the loop of [close]: the connection ends closed and the
    round does not raise, provided its socket raises nothing but
    [socket.error]. *)
Lemma guarded_close (w : world) (self : nat) (c : OutOps.conn) :
  objs w !! self = Some c ->
  (OutOps._state c <> OutOps.State.closed -> raises_only_socket_errors c) ->
  exists w',
    try_except (conn_close self) is_socket_error (ret tt) w = (w', Ok tt) /\
    closed_in w' self /\
    evolves w w'.
Proof.
  intros Hself Htolerable.
  assert (Hlt : self < length (objs w)) by (eapply lookup_lt_Some; eauto).
  unfold try_except.
  destruct (decide (OutOps._state c = OutOps.State.closed)) as [Hclosed|Hopen].
  - rewrite (conn_close_closed w self c Hself Hclosed).
    exists w. split; [reflexivity|]. split; [|apply evolves_refl].
    exists c. auto.
  - destruct (OutOps.close_raises (OutOps._sock c)) as [e|] eqn:Hraise.
    + rewrite (conn_close_raises w self c e Hself Hopen Hraise).
      rewrite (Htolerable Hopen e Hraise).
      eexists. split; [reflexivity|]. split.
      * eexists. simpl. rewrite list_lookup_insert_eq by exact Hlt.
        split; reflexivity.
      * apply evolves_update; [reflexivity|exact Hlt].
    + rewrite (conn_close_completes w self c Hself Hopen Hraise).
      destruct (call_on_close_returns (OutOps._on_close c) self
                  (with_objs
                     (<[self := OutOps.shut_down
                                  (OutOps.with_sock_open false (OutOps._sock c))
                                  [OutOps.EvJoinReceiver; OutOps.EvOnClose] c]>
                        (objs w)) w)) as (conns & -> & _).
      eexists. split; [reflexivity|]. split.
      * eexists. simpl. rewrite list_lookup_insert_eq by exact Hlt.
        split; reflexivity.
      * intros r c0 Hr. simpl.
        refine (evolves_update w self
                  (OutOps.shut_down
                     (OutOps.with_sock_open false (OutOps._sock c))
                     [OutOps.EvJoinReceiver; OutOps.EvOnClose] c)
                  eq_refl Hlt r c0 Hr).
Qed.

Lemma close_each_closes (conns : list nat) : forall w,
  (forall r, r ∈ conns ->
     exists c, objs w !! r = Some c /\
       (OutOps._state c <> OutOps.State.closed ->
        raises_only_socket_errors c)) ->
  exists w',
    close_each conns w = (w', Ok tt) /\
    (forall r, r ∈ conns -> closed_in w' r) /\
    evolves w w'.
Proof.
  induction conns as [|conn rest IH]; intros w Hall.
  - exists w. split; [reflexivity|]. split; [|apply evolves_refl].
    intros r Hr. inversion Hr.
  - destruct (Hall conn) as (c & Hconn & Htolerable); [left|].
    destruct (guarded_close w conn c Hconn Htolerable)
      as (w1 & Hrun1 & Hclosed1 & Hev1).
    destruct (IH w1) as (w2 & Hrun2 & Hclosed2 & Hev2).
    { intros r Hr. destruct (Hall r) as (cr & Hcr & Htol); [right; exact Hr|].
      destruct (Hev1 r cr Hcr) as (cr' & Hcr' & [-> | Hcl]).
      - exists cr. auto.
      - exists cr'. split; [exact Hcr'|]. intros Hopen. contradiction. }
    exists w2. split; [|split].
    + simpl. unfold bind at 1. rewrite Hrun1. exact Hrun2.
    + intros r Hr. apply elem_of_cons in Hr as [-> | Hr].
      * eapply evolves_closed_in; eauto.
      * auto.
    + eapply evolves_trans; eauto.
Qed.

(** C9, as the code has it: [close] on the registry closes every connection
    the map holds and returns, provided the sockets of the connections that
    are still open raise nothing but [socket.error] from [close()]; those
    errors are swallowed, and each mapped connection ends in state
    [closed]. *)
Theorem registry_close_swallows_socket_errors (w : world) :
  (forall k r,
     _connections w !! k = Some r ->
     exists c,
       objs w !! r = Some c /\
       (OutOps._state c <> OutOps.State.closed ->
        forall e,
          OutOps.close_raises (OutOps._sock c) = Some e ->
          is_socket_error e = true)) ->
  exists w',
    close w = (w', Ok tt) /\
    forall k r,
      _connections w !! k = Some r ->
      exists c',
        objs w' !! r = Some c' /\ OutOps._state c' = OutOps.State.closed.
Proof.
  intros Hmapped.
  assert (Hvalues : forall r, r ∈ (map_to_list (_connections w)).*2 ->
                      exists k, _connections w !! k = Some r).
  { intros r Hr. apply list_elem_of_fmap in Hr as ([k r'] & -> & Hin).
    exists k. apply elem_of_map_to_list in Hin. exact Hin. }
  destruct (close_each_closes ((map_to_list (_connections w)).*2) w)
    as (w' & Hrun & Hclosed & _).
  { intros r Hr. destruct (Hvalues r Hr) as (k & Hk). eauto. }
  exists w'. split.
  - unfold close. monad. exact Hrun.
  - intros k r Hk. apply Hclosed.
    apply list_elem_of_fmap. exists (k, r). split; [reflexivity|].
    apply elem_of_map_to_list. exact Hk.
Qed.

Lemma registry_close_swallows_socket_errors_witness :
  exists w',
    close (Examples.world_of Examples.stubborn_socket Examples.quiet_socket)
    = (w', Ok tt) /\
    forall k r,
      _connections
        (Examples.world_of Examples.stubborn_socket Examples.quiet_socket)
        !! k = Some r ->
      exists c',
        objs w' !! r = Some c' /\ OutOps._state c' = OutOps.State.closed.
Proof.
  apply (registry_close_swallows_socket_errors
           (Examples.world_of Examples.stubborn_socket Examples.quiet_socket)).
  intros k r Hk. simpl in Hk.
  apply lookup_insert_Some in Hk as [[<- <-] | [_ Hk]].
  - eexists. split; [reflexivity|]. intros _ e He.
    simpl in He. injection He as <-. reflexivity.
  - apply lookup_singleton_Some in Hk as [<- <-].
    eexists. split; [reflexivity|]. intros _ e He. discriminate He.
Defined.

(** C9 as the spec states it fails: with a first connection whose socket
    raises an exception that is not a [socket.error], [close] on the
    registry raises that exception and the other mapped connection (object
    0, port 4040) is left in state [ready]. *)
Lemma registry_close_counterexample :
  snd (close (Examples.world_of Examples.quiet_socket Examples.faulty_socket))
  = Raise (Exception "RuntimeError") /\
  _connections
    (Examples.world_of Examples.quiet_socket Examples.faulty_socket)
    !! ("localhost", 4040%Z) = Some 0 /\
  OutOps._state
    <$> objs (fst (close (Examples.world_of Examples.quiet_socket
                            Examples.faulty_socket))) !! 0
  = Some OutOps.State.ready.
Proof. repeat split; vm_compute; reflexivity. Qed.

(** ** Concurrent callers of [_get_connection] *)

Section Pool.

Variable net : string -> Z -> nat -> exn + OutOps.Socket.

Lemma consistent_frame (w w' : world) :
  objs w' = objs w ->
  _connections w' = _connections w ->
  consistent w -> consistent w'.
Proof.
  intros Hobjs Hconns [Hmapped Hlive]. unfold consistent.
  rewrite Hobjs, Hconns. auto.
Qed.

Lemma evolves_frame (w w' : world) : objs w' = objs w -> evolves w w'.
Proof. intros Hobjs r c Hr. exists c. rewrite Hobjs. auto. Qed.

Lemma closed_in_frame (w w' : world) r :
  objs w' = objs w -> closed_in w r -> closed_in w' r.
Proof. intros Hobjs (c & Hr & Hc). exists c. rewrite Hobjs. auto. Qed.

(** Replacing a connection by a closed one with the same callback. *)
Lemma consistent_replace (w : world) (r : nat) (c c' : OutOps.conn) :
  objs w !! r = Some c ->
  OutOps._on_close c' = OutOps._on_close c ->
  OutOps._state c' = OutOps.State.closed ->
  consistent w ->
  consistent (with_objs (<[r := c']> (objs w)) w).
Proof.
  intros Hr Hcb Hclosed [Hmapped Hlive].
  assert (Hlt : r < length (objs w)) by (eapply lookup_lt_Some; eauto).
  split; simpl.
  - intros host port r0 Hk.
    destruct (Hmapped host port r0 Hk) as (c0 & Hr0 & Hcb0).
    destruct (decide (r = r0)) as [<- | Hne].
    + exists c'. rewrite list_lookup_insert_eq by exact Hlt.
      split; [reflexivity|]. congruence.
    + exists c0. rewrite list_lookup_insert_ne by exact Hne. auto.
  - intros r0 c0 host port Hr0 Hcb0 Hopen.
    destruct (decide (r = r0)) as [<- | Hne].
    + rewrite list_lookup_insert_eq in Hr0 by exact Hlt.
      injection Hr0 as <-. contradiction.
    + rewrite list_lookup_insert_ne in Hr0 by exact Hne. eauto.
Qed.

(** Removing the entry of a closed connection. *)
Lemma consistent_evict (w : world) (host : string) (port : Z) (r : nat) :
  _connections w !! (host, port) = Some r ->
  closed_in w r ->
  consistent w ->
  consistent (with_connections (delete (host, port) (_connections w)) w).
Proof.
  intros Hk (c & Hr & Hclosed) [Hmapped Hlive]. split; simpl.
  - intros host' port' r' Hk'.
    apply lookup_delete_Some in Hk' as [_ Hk']. eauto.
  - intros r' c' host' port' Hr' Hcb' Hopen.
    pose proof (Hlive r' c' host' port' Hr' Hcb' Hopen) as Hk'.
    destruct (decide ((host, port) = (host', port'))) as [Heq | Hne].
    + injection Heq as <- <-.
      assert (r' = r) by congruence. subst r'.
      assert (c' = c) by congruence. subst c'. contradiction.
    + rewrite lookup_delete_ne by exact Hne. exact Hk'.
Qed.

(** Installing a new connection under a key that has no entry. *)
Lemma consistent_install (w : world) (host : string) (port : Z)
    (c : OutOps.conn) :
  _connections w !! (host, port) = None ->
  OutOps._on_close c = OutOps.CbEvict host port ->
  consistent w ->
  consistent
    (with_connections (<[(host, port) := length (objs w)]> (_connections w))
       (with_objs (objs w ++ [c]) w)).
Proof.
  intros Hfree Hcb [Hmapped Hlive]. split; simpl.
  - intros host' port' r Hk.
    apply lookup_insert_Some in Hk as [[Heq <-] | [Hne Hk]].
    + injection Heq as <- <-. exists c.
      rewrite list_lookup_middle by reflexivity. auto.
    + destruct (Hmapped host' port' r Hk) as (c0 & Hr & Hcb0).
      exists c0. split; [|exact Hcb0].
      apply lookup_app_l_Some. exact Hr.
  - intros r c0 host' port' Hr Hcb0 Hopen.
    apply lookup_app_Some in Hr as [Hr | [Hge Hr]].
    + pose proof (Hlive r c0 host' port' Hr Hcb0 Hopen) as Hk.
      rewrite lookup_insert_ne; [exact Hk|].
      intros Heq. injection Heq as <- <-. congruence.
    + apply list_lookup_singleton_Some in Hr as [Hidx <-].
      assert (r = length (objs w)) by lia. subst r.
      rewrite Hcb in Hcb0. injection Hcb0 as <- <-.
      apply lookup_insert_eq.
Qed.

Lemma evolves_install (w : world) conns (c : OutOps.conn) :
  evolves w (with_connections conns (with_objs (objs w ++ [c]) w)).
Proof.
  intros r c0 Hr. exists c0. simpl.
  split; [apply lookup_app_l_Some; exact Hr|auto].
Qed.

(** The constructor keeps the callback it was given. *)
Lemma init_on_close name sock cb b :
  OutOps._on_close (fst (OutOps.__init__ name sock cb b)) = cb.
Proof.
  unfold OutOps.__init__, OutOps.handshake, OutOps.initiate_handshake,
    OutOps.await_handshake_reply, OutOps.set_state, OutOps.log, OutOps.fresh.
  destruct b; [|reflexivity]. monad.
  destruct (OutOps.initiate_raises sock); [reflexivity|]. simpl.
  destruct (OutOps.reply_raises sock); reflexivity.
Qed.

Lemma fast_path_world host port w :
  exists r, fast_path host port w = (w, r).
Proof.
  unfold fast_path. monad.
  destruct (negb (String.eqb host "")); simpl; [|eauto].
  destruct (negb (port =? 0)%Z); simpl; eauto.
Qed.

Lemma open_socket_frame host port w :
  exists w' r,
    open_socket net host port w = (w', r) /\
    objs w' = objs w /\ _connections w' = _connections w.
Proof.
  unfold open_socket, log. monad.
  destruct (net host port (next_fileno w)); simpl; eauto.
Qed.

(** The locked block, case by case. *)
Lemma locked_section_eq host port sock w :
  locked_section host port sock w
  = match _connections w !! (host, port) with
    | Some existing =>
        (with_trace (trace w ++ [EvDiscard (OutOps.fileno sock)]) w,
         match OutOps.close_raises sock with
         | Some e => Raise e
         | None => Ok existing
         end)
    | None =>
        match OutOps.__init__ (_name w) sock (OutOps.CbEvict host port) true
        with
        | (c, Ok _) =>
            (with_connections
               (<[(host, port) := length (objs w)]> (_connections w))
               (with_objs (objs w ++ [c]) w),
             Ok (length (objs w)))
        | (_, Raise e) => (w, Raise e)
        | (_, Waiting) => (w, Waiting)
        end
    end.
Proof.
  unfold locked_section. unfold bind at 1, gets at 1.
  destruct (_connections w !! (host, port)) as [existing|].
  - unfold discard, log. monad.
    destruct (OutOps.close_raises sock); reflexivity.
  - unfold bind, gets, modify, ret, construct.
    destruct (OutOps.__init__ (_name w) sock (OutOps.CbEvict host port) true)
      as [c [[]|e|]]; reflexivity.
Qed.

Lemma locked_section_invariant host port sock w :
  consistent w ->
  consistent (fst (locked_section host port sock w)) /\
  evolves w (fst (locked_section host port sock w)).
Proof.
  intros Hw. rewrite locked_section_eq.
  destruct (_connections w !! (host, port)) as [existing|] eqn:Hk.
  - simpl. split; [apply (consistent_frame w); auto|apply evolves_frame; auto].
  - pose proof (init_on_close (_name w) sock (OutOps.CbEvict host port) true)
      as Hcb.
    destruct (OutOps.__init__ (_name w) sock (OutOps.CbEvict host port) true)
      as [c [[]|e|]]; cbn [fst snd] in *.
    + split.
      * exact (consistent_install w host port c Hk Hcb Hw).
      * exact (evolves_install w
                 (<[(host, port) := length (objs w)]> (_connections w)) c).
    + split; [exact Hw|apply evolves_refl].
    + split; [exact Hw|apply evolves_refl].
Qed.

(** The part of [close] before the callback, case by case. *)
Lemma close_prefix_eq self w :
  close_prefix self w
  = match objs w !! self with
    | None => (w, Raise (Exception "ReferenceError"))
    | Some c =>
        if OutOps.State.eqb (OutOps._state c) OutOps.State.closed
        then (w, Ok false)
        else
          match OutOps.close_raises (OutOps._sock c) with
          | Some e =>
              (with_objs
                 (<[self := OutOps.shut_down (OutOps._sock c) [] c]> (objs w))
                 w, Raise e)
          | None =>
              (with_objs
                 (<[self := OutOps.shut_down
                              (OutOps.with_sock_open false (OutOps._sock c))
                              [OutOps.EvJoinReceiver] c]> (objs w))
                 w, Ok true)
          end
    end.
Proof.
  unfold close_prefix, OutOps.closed.
  destruct (objs w !! self) as [c|] eqn:Hself.
  - unfold bind at 1. rewrite (with_self_read w self c _ Hself).
    destruct (OutOps.State.eqb (OutOps._state c) OutOps.State.closed);
      [reflexivity|].
    unfold bind at 1.
    destruct (OutOps.close_raises (OutOps._sock c)) as [e|] eqn:Hraise.
    + erewrite with_self_run;
        [|exact Hself|rewrite close_statements, Hraise; reflexivity].
      reflexivity.
    + erewrite with_self_run;
        [|exact Hself|rewrite close_statements, Hraise; reflexivity].
      reflexivity.
  - unfold bind at 1, with_self. rewrite Hself. reflexivity.
Qed.

Lemma close_prefix_invariant self w :
  consistent w ->
  consistent (fst (close_prefix self w)) /\
  evolves w (fst (close_prefix self w)) /\
  (snd (close_prefix self w) = Ok true ->
   closed_in (fst (close_prefix self w)) self).
Proof.
  intros Hw. rewrite close_prefix_eq.
  destruct (objs w !! self) as [c|] eqn:Hself.
  - assert (Hlt : self < length (objs w)) by (eapply lookup_lt_Some; eauto).
    destruct (OutOps.State.eqb (OutOps._state c) OutOps.State.closed).
    + simpl. split; [exact Hw|]. split; [apply evolves_refl|discriminate].
    + destruct (OutOps.close_raises (OutOps._sock c)) as [e|]; simpl.
      * split; [|split; [|discriminate]].
        -- eapply consistent_replace; eauto.
        -- apply evolves_update; auto.
      * split; [|split].
        -- eapply consistent_replace; eauto.
        -- apply evolves_update; auto.
        -- intros _. eexists. simpl.
           rewrite list_lookup_insert_eq by exact Hlt. split; reflexivity.
  - simpl. split; [exact Hw|]. split; [apply evolves_refl|discriminate].
Qed.

Lemma on_conn_close_invariant host port self w :
  consistent w ->
  closed_in w self ->
  consistent (fst (_on_conn_close host port self w)) /\
  objs (fst (_on_conn_close host port self w)) = objs w.
Proof.
  intros Hw Hclosed. unfold _on_conn_close. monad.
  destruct (_connections w !! (host, port)) as [mapped|] eqn:Hk; [|auto].
  destruct (Nat.eqb mapped self) eqn:Heq; [|auto].
  apply Nat.eqb_eq in Heq. subst mapped. simpl.
  split; [|reflexivity]. apply (consistent_evict w host port self); auto.
Qed.

(** The callback of a connection that exists. *)
Lemma close_callback_eq self w c :
  objs w !! self = Some c ->
  close_callback self w
  = call_on_close (OutOps._on_close c) self
      (with_objs
         (<[self := OutOps.with_trace
                      (OutOps.trace c ++ [OutOps.EvOnClose]) c]> (objs w))
         w).
Proof.
  intros Hself. unfold close_callback. unfold bind at 1.
  erewrite with_self_run; [|exact Hself|reflexivity]. reflexivity.
Qed.

Lemma close_callback_invariant self w :
  consistent w ->
  closed_in w self ->
  consistent (fst (close_callback self w)) /\
  evolves w (fst (close_callback self w)).
Proof.
  intros Hw (c & Hself & Hclosed).
  assert (Hlt : self < length (objs w)) by (eapply lookup_lt_Some; eauto).
  rewrite (close_callback_eq self w c Hself).
  set (c1 := OutOps.with_trace (OutOps.trace c ++ [OutOps.EvOnClose]) c).
  set (w1 := with_objs (<[self := c1]> (objs w)) w).
  assert (Hw1 : consistent w1).
  { eapply consistent_replace; eauto. }
  assert (Hev1 : evolves w w1).
  { apply evolves_update; auto. }
  assert (Hclosed1 : closed_in w1 self).
  { exists c1. simpl. rewrite list_lookup_insert_eq by exact Hlt. auto. }
  destruct (OutOps._on_close c) as [|host port]; simpl.
  - auto.
  - destruct (on_conn_close_invariant host port self w1 Hw1 Hclosed1)
      as [Hw2 Hobjs].
    split; [exact Hw2|].
    eapply evolves_trans; [exact Hev1|]. apply evolves_frame. exact Hobjs.
Qed.

Lemma finish_fst {A} (f : A -> thread) (m : M world A) w :
  fst (finish f m w) = fst (m w).
Proof. unfold finish. destruct (m w) as [w' [a|e|]]; reflexivity. Qed.

Lemma finish_callback {A} (f : A -> thread) (m : M world A) w r :
  snd (finish f m w) = Callback r ->
  exists a, snd (m w) = Ok a /\ f a = Callback r.
Proof.
  unfold finish. destruct (m w) as [w' [a|e|]]; simpl; try discriminate.
  eauto.
Qed.

(** One step of one caller keeps the store consistent, leaves every
    connection untouched or closed, and only a caller that has just closed a
    connection goes on to its callback. *)
Lemma step_invariant (t : thread) (w : world) :
  consistent w ->
  (forall r, t = Callback r -> closed_in w r) ->
  consistent (fst (step net t w)) /\
  evolves w (fst (step net t w)) /\
  (forall r, snd (step net t w) = Callback r ->
             closed_in (fst (step net t w)) r).
Proof.
  intros Hw Hcb. destruct t as [host port|host port|host port sock|r0|r0|r];
    unfold step.
  - destruct (fast_path_world host port w) as [r Hr].
    rewrite finish_fst, Hr. simpl.
    split; [exact Hw|]. split; [apply evolves_refl|].
    intros r1 H. apply finish_callback in H as (a & _ & H).
    destruct a; discriminate.
  - destruct (open_socket_frame host port w) as (w' & r & Hr & Hobjs & Hconns).
    rewrite finish_fst, Hr. simpl.
    split; [eapply consistent_frame; eauto|].
    split; [apply evolves_frame; auto|].
    intros r1 H. apply finish_callback in H as (a & _ & H). discriminate.
  - rewrite finish_fst.
    destruct (locked_section_invariant host port sock w Hw) as [H1 H2].
    split; [exact H1|]. split; [exact H2|].
    intros r1 H. apply finish_callback in H as (a & _ & H). discriminate.
  - rewrite finish_fst.
    destruct (close_prefix_invariant r0 w Hw) as (H1 & H2 & H3).
    split; [exact H1|]. split; [exact H2|].
    intros r1 H. apply finish_callback in H as (a & Ha & H).
    destruct a; [|discriminate]. injection H as <-. auto.
  - rewrite finish_fst.
    destruct (close_callback_invariant r0 w Hw (Hcb r0 eq_refl)) as [H1 H2].
    split; [exact H1|]. split; [exact H2|].
    intros r1 H. apply finish_callback in H as (a & _ & H). discriminate.
  - simpl. split; [exact Hw|]. split; [apply evolves_refl|discriminate].
Qed.

(** Every schedule keeps the store consistent. *)
Lemma run_invariant (schedule : list nat) : forall w pool,
  consistent w ->
  callbacks_closed w pool ->
  consistent (fst (run net schedule w pool)) /\
  callbacks_closed (fst (run net schedule w pool))
                   (snd (run net schedule w pool)).
Proof.
  induction schedule as [|i rest IH]; intros w pool Hw Hpool; simpl.
  - auto.
  - destruct (pool !! i) as [t|] eqn:Ht; [|auto].
    destruct (step_invariant t w Hw) as (Hw' & Hev & Hnew).
    { intros r ->. eapply Hpool; eauto. }
    destruct (step net t w) as [w' t'] eqn:Hstep. simpl in *.
    apply IH; [exact Hw'|].
    intros j r Hj.
    assert (Hlt : i < length pool) by (eapply lookup_lt_Some; eauto).
    destruct (decide (i = j)) as [<- | Hne].
    + rewrite list_lookup_insert_eq in Hj by exact Hlt.
      injection Hj as ->. auto.
    + rewrite list_lookup_insert_ne in Hj by exact Hne.
      eapply evolves_closed_in; eauto.
Qed.

End Pool.

(** C8: a caller of [_get_connection] that missed the fast path, opened a
    socket and finds, under the lock, an entry for its key closes its socket
    and returns the connection of that entry; the map and the store are as
    they were.  Hence, at every point of every interleaving of callers of
    [_get_connection] and of callers of [close] on a registry that started
    empty, two pooled connections for the same key that are not closed are
    the same object, the one the map holds for the key. *)
Theorem get_connection_at_most_one_live
    (net : string -> Z -> nat -> exn + OutOps.Socket) :
  (forall w host port sock existing,
     _connections w !! (host, port) = Some existing ->
     OutOps.close_raises sock = None ->
     step net (Opened host port sock) w
     = (with_trace (trace w ++ [EvDiscard (OutOps.fileno sock)]) w,
        returns existing)) /\
  (forall name w0 pool schedule,
     __init__ name = Ok w0 ->
     Forall entering pool ->
     forall host port r1 r2 c1 c2,
       objs (fst (run net schedule w0 pool)) !! r1 = Some c1 ->
       objs (fst (run net schedule w0 pool)) !! r2 = Some c2 ->
       OutOps._on_close c1 = OutOps.CbEvict host port ->
       OutOps._on_close c2 = OutOps.CbEvict host port ->
       OutOps._state c1 <> OutOps.State.closed ->
       OutOps._state c2 <> OutOps.State.closed ->
       r1 = r2 /\
       _connections (fst (run net schedule w0 pool)) !! (host, port)
       = Some r1).
Proof.
  split.
  - intros w host port sock existing Hk Hclose.
    unfold step, finish. rewrite locked_section_eq, Hk, Hclose. reflexivity.
  - intros name w0 pool schedule Hinit Hpool host port r1 r2 c1 c2
           Hr1 Hr2 Hcb1 Hcb2 Hopen1 Hopen2.
    assert (Hw0 : consistent w0).
    { unfold __init__ in Hinit. destruct (String.eqb name ""); [discriminate|].
      injection Hinit as <-. split; simpl.
      - intros h p r Hk. rewrite lookup_empty in Hk. discriminate.
      - intros r c h p Hr. rewrite lookup_nil in Hr. discriminate. }
    assert (Hcallbacks : callbacks_closed w0 pool).
    { intros i r Hi. rewrite Forall_lookup in Hpool.
      destruct (Hpool i _ Hi). }
    destruct (run_invariant net schedule w0 pool Hw0 Hcallbacks)
      as [[_ Hlive] _].
    pose proof (Hlive r1 c1 host port Hr1 Hcb1 Hopen1) as Hk1.
    pose proof (Hlive r2 c2 host port Hr2 Hcb2 Hopen2) as Hk2.
    split; [congruence|exact Hk1].
Qed.

Lemma get_connection_at_most_one_live_witness :
  step Examples.calm_net
       (Opened "localhost" 4040 Examples.quiet_socket) Examples.twin_world
  = (with_trace [EvDiscard 3] Examples.twin_world, returns 1) /\
  (0 = 0 /\
   _connections (fst (run Examples.calm_net Examples.round_robin
                        Examples.empty_world Examples.three_callers))
     !! ("localhost", 4040%Z) = Some 0).
Proof.
  split.
  - apply (proj1 (get_connection_at_most_one_live Examples.calm_net)
             Examples.twin_world "localhost" 4040%Z Examples.quiet_socket 1).
    + reflexivity.
    + reflexivity.
  - apply (proj2 (get_connection_at_most_one_live Examples.calm_net)
             "client" Examples.empty_world Examples.three_callers
             Examples.round_robin eq_refl
             ltac:(repeat constructor)
             "localhost" 4040%Z 0 0
             (fst (OutOps.__init__ "client"
                     (with_fileno 0 Examples.quiet_socket)
                     (OutOps.CbEvict "localhost" 4040) true))
             (fst (OutOps.__init__ "client"
                     (with_fileno 0 Examples.quiet_socket)
                     (OutOps.CbEvict "localhost" 4040) true))).
    + reflexivity.
    + reflexivity.
    + reflexivity.
    + reflexivity.
    + discriminate.
    + discriminate.
Defined.

(** Three callers race for one destination: each opens a socket, the first
    to take the lock installs its connection, the two others discard their
    sockets, and all three return the same connection. *)
Example three_callers_one_connection :
  let final := run Examples.calm_net Examples.round_robin
                 Examples.empty_world Examples.three_callers in
  snd final = [returns 0; returns 0; returns 0] /\
  length (objs (fst final)) = 1 /\
  _connections (fst final) !! ("localhost", 4040%Z) = Some 0 /\
  trace (fst final)
  = [EvSocket 0 "localhost" 4040; EvSocket 1 "localhost" 4040;
     EvSocket 2 "localhost" 4040; EvDiscard 1; EvDiscard 2].
Proof. vm_compute. repeat split; reflexivity. Qed.

(** ** The scheduler's steps against the methods *)

(** [close] on a connection is the part before the callback followed, when
    it is due, by the callback. *)
Lemma conn_close_in_two_steps (self : nat) (w : world) :
  conn_close self w
  = bind (close_prefix self)
         (fun due : bool => if due then close_callback self else ret tt) w.
Proof.
  unfold conn_close, close_prefix, close_callback, bind.
  destruct (with_self self OutOps.closed w) as [w1 [[|]|e|]];
    try reflexivity.
  destruct (with_self self _ w1) as [w2 [[]|e|]]; reflexivity.
Qed.

(** A caller of [_get_connection] that is never interrupted. *)
Lemma get_connection_in_three_steps
    (net : string -> Z -> nat -> exn + OutOps.Socket)
    (host : string) (port : Z) (w : world) :
  run net [0; 0; 0] w [Enter host port]
  = (fst (_get_connection net host port w),
     [match snd (_get_connection net host port w) with
      | Ok c => returns c
      | Raise e => Done (Raise e)
      | Waiting => Done Waiting
      end]).
Proof.
  unfold _get_connection, bind. simpl. unfold finish at 1.
  destruct (fast_path host port w) as [w1 [[c|]|e|]]; try reflexivity.
  simpl. unfold finish at 1.
  destruct (open_socket net host port w1) as [w2 [sock|e|]]; try reflexivity.
  simpl. unfold finish.
  destruct (locked_section host port sock w2) as [w3 [c|e|]]; reflexivity.
Qed.

End RegistryFacts.

(* ===================================================================== *)
(** * The two loops at work *)
(* ===================================================================== *)

Module LoopFacts.
Import OutOps.
Import OutOpsFacts.
Import Scenarios.

(** ** Nothing to do *)

Lemma sender_body_empty (c : conn) :
  _outstanding c = [] -> sender_body c = (c, Ok Continue).
Proof.
  intros Hq. unfold sender_body, queue_get. monad. rewrite Hq. reflexivity.
Qed.

Lemma receiver_body_silent (c : conn) :
  sock_open (_sock c) = true ->
  rx (_sock c) = [] ->
  receiver_body c = (c, Ok Continue).
Proof.
  intros Hopen Hrx. unfold receiver_body, await. monad.
  rewrite Hopen. simpl. rewrite Hrx. reflexivity.
Qed.

Lemma sender_idle (fuel : nat) (c : conn) :
  _state c <> State.closed ->
  _outstanding c = [] ->
  _start_sender fuel c = (c, Waiting).
Proof.
  intros Hstate Hq. induction fuel as [|n IH].
  - apply sender_still_running. exact Hstate.
  - rewrite sender_round by exact Hstate.
    rewrite sender_body_empty by exact Hq. exact IH.
Qed.

Lemma receiver_idle (fuel : nat) (c : conn) :
  _state c <> State.closed ->
  sock_open (_sock c) = true ->
  rx (_sock c) = [] ->
  _start_receiver fuel c = (c, Waiting).
Proof.
  intros Hstate Hopen Hrx. induction fuel as [|n IH].
  - apply receiver_still_running. exact Hstate.
  - rewrite receiver_round by exact Hstate.
    rewrite receiver_body_silent by assumption. exact IH.
Qed.

Lemma loop_closed (fuel : nat) (body : M conn ctl) (c : conn) :
  _state c = State.closed ->
  while_not_closed fuel body c = (c, Ok tt).
Proof.
  intros Hstate. destruct fuel; simpl; unfold bind, closed, gets;
    rewrite Hstate; reflexivity.
Qed.

(** X3: the timeouts of the queue and of the socket are retries, and the state
    [closed] is the signal to stop: however long it is observed, a loop
    with nothing to do on an open connection is still running and has
    changed nothing; on a closed connection each loop returns at once,
    whatever is on the queue or on the wire, and leaves it there. *)
Theorem loops_idle_until_closed (fuel : nat) (c : conn) :
  (_state c <> State.closed ->
   _outstanding c = [] ->
   _start_sender fuel c = (c, Waiting)) /\
  (_state c <> State.closed ->
   sock_open (_sock c) = true ->
   rx (_sock c) = [] ->
   _start_receiver fuel c = (c, Waiting)) /\
  (_state c = State.closed ->
   _start_sender fuel c = (c, Ok tt) /\ _start_receiver fuel c = (c, Ok tt)).
Proof.
  split; [|split].
  - apply sender_idle.
  - apply receiver_idle.
  - intros Hstate. split; apply loop_closed; exact Hstate.
Qed.

Lemma loops_idle_until_closed_witness :
  _start_sender 5 Examples.conn_ready = (Examples.conn_ready, Waiting) /\
  _start_receiver 5 Examples.conn_ready = (Examples.conn_ready, Waiting) /\
  _start_sender 5 Examples.conn_closed = (Examples.conn_closed, Ok tt) /\
  _start_receiver 5 Examples.conn_closed = (Examples.conn_closed, Ok tt).
Proof.
  split; [|split].
  - apply (proj1 (loops_idle_until_closed 5 Examples.conn_ready)).
    + discriminate.
    + reflexivity.
  - apply (proj1 (proj2 (loops_idle_until_closed 5 Examples.conn_ready))).
    + discriminate.
    + reflexivity.
    + reflexivity.
  - apply (proj2 (proj2 (loops_idle_until_closed 5 Examples.conn_closed))).
    reflexivity.
Defined.

(** ** The sender at work *)

Lemma frames_of_cons counter m f rs :
  frames_of counter ((m, f) :: rs)
  = EvFrameAndWrite m (counter + 1)%Z :: frames_of (counter + 1)%Z rs.
Proof.
  unfold frames_of. rewrite imap_cons. simpl. f_equal.
  - f_equal. lia.
  - apply imap_ext. intros i r _. simpl. f_equal. lia.
Qed.

(** The sender takes the genuine requests at the head of the queue one by
    one. *)
Lemma sender_drains (reqs : list (CallRequestMessage * nat)) :
  forall (c : conn) (tail : list (option Request)) (fuel : nat),
    _state c <> State.closed ->
    (forall m i, write_raises (_sock c) m i = None) ->
    _outstanding c = queue_of reqs ++ tail ->
    exists c',
      _start_sender (length reqs + fuel) c = _start_sender fuel c' /\
      _state c' = _state c /\
      _sock c' = _sock c /\
      heap c' = heap c /\
      _outstanding c' = tail /\
      _id_counter c' = (_id_counter c + Z.of_nat (length reqs))%Z /\
      trace c' = trace c ++ frames_of (_id_counter c) reqs /\
      (forall i r,
         reqs !! i = Some r ->
         _futures c' !! (_id_counter c + 1 + Z.of_nat i)%Z = Some (snd r)) /\
      (forall k,
         (k <= _id_counter c)%Z -> _futures c' !! k = _futures c !! k).
Proof.
  induction reqs as [|[m f] rs IH]; intros c tail fuel Hstate Hwrite Hq.
  - exists c. simpl in *. repeat split; auto.
    + lia.
    + unfold frames_of. simpl. rewrite app_nil_r. reflexivity.
    + intros i r Hi. rewrite lookup_nil in Hi. discriminate.
  - simpl in Hq. cbn [length Nat.add].
    rewrite sender_round by exact Hstate.
    rewrite (sender_body_request c (mkRequest (Some m) f) m
               (queue_of rs ++ tail) Hq eq_refl).
    cbv zeta. rewrite Hwrite.
    match goal with
    | |- context [_start_sender _ ?x] => set (c1 := x)
    end.
    destruct (IH c1 tail fuel Hstate Hwrite eq_refl)
      as (c' & Hrun & Hst & Hsk & Hheap & Hout & Hcnt & Htrace & Hnew & Hold).
    exists c'. cbn [_state _sock heap _id_counter trace _futures c1] in *.
    split; [exact Hrun|]. repeat split; auto.
    + rewrite Hcnt. lia.
    + rewrite Htrace, frames_of_cons, <- app_assoc. reflexivity.
    + intros i r Hi. destruct i as [|j]; simpl in Hi.
      * injection Hi as <-.
        replace (_id_counter c + 1 + Z.of_nat 0)%Z
          with (_id_counter c + 1)%Z by lia.
        rewrite Hold by lia. apply lookup_insert_eq.
      * replace (_id_counter c + 1 + Z.of_nat (S j))%Z
          with (_id_counter c + 1 + 1 + Z.of_nat j)%Z by lia.
        apply Hnew. exact Hi.
    + intros k Hk. rewrite Hold by lia.
      apply lookup_insert_ne. lia.
Qed.

(** X1: with [n] genuine requests queued and a peer that accepts every frame,
    the sender writes the requests in the order they were queued, the
    [i]-th under the identifier [counter + 1 + i], and registers the future
    of each under its identifier; it neither resolves a future nor touches
    an entry the table already had for an identifier handed out before.  It
    is then still running, with an empty queue. *)
Theorem sender_writes_in_queue_order (c : conn)
    (reqs : list (CallRequestMessage * nat)) (fuel : nat) :
  _state c <> State.closed ->
  (forall m i, write_raises (_sock c) m i = None) ->
  _outstanding c = queue_of reqs ->
  exists c',
    _start_sender (length reqs + fuel) c = (c', Waiting) /\
    _outstanding c' = [] /\
    _id_counter c' = (_id_counter c + Z.of_nat (length reqs))%Z /\
    trace c' = trace c ++ frames_of (_id_counter c) reqs /\
    heap c' = heap c /\
    (forall i r,
       reqs !! i = Some r ->
       _futures c' !! (_id_counter c + 1 + Z.of_nat i)%Z = Some (snd r)) /\
    (forall k, (k <= _id_counter c)%Z -> _futures c' !! k = _futures c !! k).
Proof.
  intros Hstate Hwrite Hq.
  destruct (sender_drains reqs c [] fuel Hstate Hwrite)
    as (c' & Hrun & Hst & Hsk & Hheap & Hout & Hcnt & Htrace & Hnew & Hold).
  { rewrite app_nil_r. exact Hq. }
  exists c'. split.
  - rewrite Hrun. apply sender_idle; [rewrite Hst; exact Hstate|exact Hout].
  - repeat split; auto.
Qed.

(** X2: the poison marker: the sender writes the genuine requests queued in
    front of [None], in order, then leaves its loop; it writes nothing for
    what is queued behind the marker, which stays on the queue. *)
Theorem sender_stops_at_poison (c : conn)
    (reqs : list (CallRequestMessage * nat)) (rest : list (option Request))
    (fuel : nat) :
  _state c <> State.closed ->
  (forall m i, write_raises (_sock c) m i = None) ->
  _outstanding c = queue_of reqs ++ None :: rest ->
  exists c',
    _start_sender (length reqs + S fuel) c = (c', Ok tt) /\
    _outstanding c' = rest /\
    _id_counter c' = (_id_counter c + Z.of_nat (length reqs))%Z /\
    trace c' = trace c ++ frames_of (_id_counter c) reqs.
Proof.
  intros Hstate Hwrite Hq.
  destruct (sender_drains reqs c (None :: rest) (S fuel) Hstate Hwrite Hq)
    as (c' & Hrun & Hst & Hsk & Hheap & Hout & Hcnt & Htrace & _ & _).
  exists (with_outstanding rest c'). split.
  - rewrite Hrun. rewrite sender_round by (rewrite Hst; exact Hstate).
    unfold sender_body, queue_get. monad. rewrite Hout. reflexivity.
  - repeat split; auto.
Qed.

(** ** The receiver at work *)

Lemma receiver_dispatch (c : conn) (i : Z) (m : Response)
    (rest : list inbound) (fut : nat) (fuel : nat) :
  _state c <> State.closed ->
  sock_open (_sock c) = true ->
  rx (_sock c) = InFrame i m :: rest ->
  _futures c !! i = Some fut ->
  _start_receiver (S fuel) c
  = _start_receiver fuel
      (with_heap (Futures.set_result fut m (heap c))
         (with_sock (with_rx rest) c)).
Proof.
  intros Hstate Hopen Hrx Hfut.
  rewrite receiver_round by exact Hstate.
  unfold receiver_body, await. monad.
  rewrite Hopen. simpl. rewrite Hrx. simpl. rewrite Hfut. reflexivity.
Qed.

(** X4: of what [await] raises the receiver survives [socket.timeout] alone: a
    timeout is retried, any other exception (a [socket.error], say) leaves
    the loop and ends it, and end of stream ends it without an error, what
    is behind it on the wire never being read.  In none of the three cases
    is a future resolved or the pending-call table changed. *)
Theorem receiver_survives_timeouts_only (c : conn) (rest : list inbound)
    (fuel : nat) :
  _state c <> State.closed ->
  sock_open (_sock c) = true ->
  (rx (_sock c) = InRaise SocketTimeout :: rest ->
   _start_receiver (S fuel) c
   = _start_receiver fuel (with_sock (with_rx rest) c)) /\
  (forall e,
     rx (_sock c) = InRaise e :: rest ->
     is_socket_timeout e = false ->
     _start_receiver (S fuel) c = (with_sock (with_rx rest) c, Raise e)) /\
  (rx (_sock c) = InEndOfStream :: rest ->
   _start_receiver (S fuel) c = (c, Ok tt)).
Proof.
  intros Hstate Hopen. split; [|split].
  - intros Hrx. rewrite receiver_round by exact Hstate.
    unfold receiver_body, await. monad.
    rewrite Hopen. simpl. rewrite Hrx. reflexivity.
  - intros e Hrx He. rewrite receiver_round by exact Hstate.
    unfold receiver_body, await. monad.
    rewrite Hopen. simpl. rewrite Hrx. simpl. rewrite He. reflexivity.
  - intros Hrx. rewrite receiver_round by exact Hstate.
    unfold receiver_body, await. monad.
    rewrite Hopen. simpl. rewrite Hrx. reflexivity.
Qed.

(** ** Two calls in flight *)

Lemma set_result_frame (h : Futures.heap) (fut rf : nat)
    (fn : Response -> res Response) (resp : Response) (j : nat) :
  h !! fut = Some (Futures.mkCell None [(rf, fn)]) ->
  j <> fut -> j <> rf ->
  Futures.set_result fut resp h !! j = h !! j.
Proof.
  intros Hfut Hj1 Hj2.
  unfold Futures.set_result, Futures.resolve. rewrite Hfut. simpl.
  rewrite (settle_present h fut _ _ Hfut).
  unfold Futures.run_callback. simpl.
  destruct (fn resp); unfold Futures.settle;
    try destruct (_ !! rf);
    rewrite ?list_lookup_insert_ne by auto; reflexivity.
Qed.

Lemma result_agree (h1 h2 : Futures.heap) (r : nat) :
  h1 !! r = h2 !! r -> Futures.result r h1 = Futures.result r h2.
Proof. intros H. unfold Futures.result. rewrite H. reflexivity. Qed.

(** The futures of two calls queued one after the other on a connection
    whose store of futures has [n] cells. *)
Lemma two_calls_heap (c : conn) (a1 a2 a3 b1 b2 b3 : bytes) :
  let n := length (heap c) in
  let H := heap (queued (queued c a1 a2 a3) b1 b2 b3) in
  H !! n = Some (Futures.mkCell None [(S n, handle_response)]) /\
  H !! S n = Some (Futures.mkCell None []) /\
  H !! S (S n)
  = Some (Futures.mkCell None [(S (S (S n)), handle_response)]) /\
  H !! S (S (S n)) = Some (Futures.mkCell None []).
Proof.
  intros n H. subst H. cbn [heap queued].
  assert (Hlen : length (heap c ++
                   [Futures.mkCell None [(S n, handle_response)];
                    Futures.mkCell None []]) = S (S n)).
  { rewrite length_app. simpl. unfold n. lia. }
  fold n. rewrite Hlen. rewrite <- app_assoc. simpl.
  repeat split.
  - apply list_lookup_middle. reflexivity.
  - rewrite lookup_app_r by (unfold n; lia).
    replace (S n - length (heap c)) with 1 by (unfold n; lia). reflexivity.
  - rewrite lookup_app_r by (unfold n; lia).
    replace (S (S n) - length (heap c)) with 2 by (unfold n; lia).
    reflexivity.
  - rewrite lookup_app_r by (unfold n; lia).
    replace (S (S (S n)) - length (heap c)) with 3 by (unfold n; lia).
    reflexivity.
Qed.

(** X5: two calls are queued, [a] then [b], and the answers arrive in the
    other order.  The answer to [b] resolves the future of [b] while the
    future of [a] is still pending; the answer to [a] then resolves the
    future of [a], and the future of [b] keeps what it got: a response goes
    to the call whose identifier it carries, whatever the order of
    arrival. *)
Theorem responses_routed_by_identifier (c : conn)
    (a1 a2 a3 b1 b2 b3 : bytes) (ra rb : Response) :
  _state c = State.ready ->
  _outstanding c = [] ->
  sock_open (_sock c) = true ->
  (forall m i, write_raises (_sock c) m i = None) ->
  let fa := S (length (heap c)) in
  let fb := S (S (S (length (heap c)))) in
  let wire := [InFrame (_id_counter c + 2)%Z rb;
               InFrame (_id_counter c + 1)%Z ra] in
  exists cA cB c3,
    send a1 a2 a3 None true (fun x => x) c = (cA, Ok (Deferred fa)) /\
    send b1 b2 b3 None true (fun x => x) cA = (cB, Ok (Deferred fb)) /\
    c3 = with_sock (with_rx wire) (fst (_start_sender 2 cB)) /\
    Futures.result fb (heap (fst (_start_receiver 1 c3)))
    = handle_response rb /\
    Futures.result fa (heap (fst (_start_receiver 1 c3))) = Waiting /\
    Futures.result fa (heap (fst (_start_receiver 2 c3)))
    = handle_response ra /\
    Futures.result fb (heap (fst (_start_receiver 2 c3)))
    = handle_response rb.
Proof.
  intros Hstate Hq Hopen Hwrite fa fb wire.
  set (n := length (heap c)) in *.
  set (cA := queued c a1 a2 a3).
  set (cB := queued cA b1 b2 b3).
  assert (HlenA : length (heap cA) = S (S n)).
  { unfold cA. cbn [heap queued]. rewrite length_app. simpl. unfold n. lia. }
  assert (HopenB : _state cB <> State.closed).
  { cbn. rewrite Hstate. discriminate. }
  destruct (two_calls_heap c a1 a2 a3 b1 b2 b3) as (H0 & H1 & H2 & H3).
  fold n cA cB in H0, H1, H2, H3.
  destruct (sender_drains
              [(mkCallRequest a1 a2 a3, n); (mkCallRequest b1 b2 b3, S (S n))]
              cB [] 0 HopenB)
    as (c' & Hrun & Hst & Hsk & Hheap & Hout & Hcnt & Htrace & Hnew & _).
  { exact Hwrite. }
  { unfold cB. cbn [_outstanding queued]. rewrite HlenA.
    unfold cA. cbn [_outstanding queued]. rewrite Hq. reflexivity. }
  assert (Hopen' : _state c' <> State.closed) by (rewrite Hst; exact HopenB).
  cbn [length Nat.add] in Hrun.
  rewrite sender_still_running in Hrun by exact Hopen'.
  pose proof (Hnew 0 _ eq_refl) as Hka. pose proof (Hnew 1 _ eq_refl) as Hkb.
  cbn [snd] in Hka, Hkb.
  replace (_id_counter cB + 1 + Z.of_nat 0)%Z with (_id_counter c + 1)%Z
    in Hka by (cbn; lia).
  replace (_id_counter cB + 1 + Z.of_nat 1)%Z with (_id_counter c + 2)%Z
    in Hkb by (cbn; lia).
  set (c3 := with_sock (with_rx wire) c').
  set (c4 := with_heap (Futures.set_result (S (S n)) rb (heap c3))
               (with_sock (with_rx [InFrame (_id_counter c + 1)%Z ra]) c3)).
  set (c5 := with_heap (Futures.set_result n ra (heap c4))
               (with_sock (with_rx []) c4)).
  assert (Hsock3 : sock_open (_sock c3) = true).
  { cbn. rewrite Hsk. exact Hopen. }
  assert (Hrecv1 : _start_receiver 1 c3 = (c4, Waiting)).
  { rewrite (receiver_dispatch c3 (_id_counter c + 2)%Z rb
               [InFrame (_id_counter c + 1)%Z ra] (S (S n)) 0);
      [|exact Hopen'|exact Hsock3|reflexivity|exact Hkb].
    apply receiver_still_running. exact Hopen'. }
  assert (Hrecv2 : _start_receiver 2 c3 = (c5, Waiting)).
  { rewrite (receiver_dispatch c3 (_id_counter c + 2)%Z rb
               [InFrame (_id_counter c + 1)%Z ra] (S (S n)) 1);
      [|exact Hopen'|exact Hsock3|reflexivity|exact Hkb].
    fold c4.
    rewrite (receiver_dispatch c4 (_id_counter c + 1)%Z ra [] n 0);
      [|exact Hopen'|exact Hsock3|reflexivity|exact Hka].
    apply receiver_still_running. exact Hopen'. }
  assert (Hh3 : heap c3 = heap cB) by exact Hheap.
  exists cA, cB, c3.
  split; [apply send_deferred_eq; exact Hstate|].
  split.
  { unfold fb. rewrite <- HlenA. apply send_deferred_eq. exact Hstate. }
  split; [unfold c3; rewrite Hrun; reflexivity|].
  rewrite Hrecv1, Hrecv2. cbn [fst]. cbn [heap c4 c5 with_heap].
  change (heap (with_sock (with_rx [InFrame (_id_counter c + 1)%Z ra]) c3))
    with (heap c3).
  rewrite Hh3.
  assert (Hfa_after_b :
            Futures.set_result (S (S n)) rb (heap cB) !! S n
            = heap cB !! S n).
  { apply (set_result_frame _ _ _ _ _ _ H2); lia. }
  assert (Hsrc_after_b :
            Futures.set_result (S (S n)) rb (heap cB) !! n = heap cB !! n).
  { apply (set_result_frame _ _ _ _ _ _ H2); lia. }
  unfold fa, fb. fold n.
  repeat split.
  - apply set_result_reaches_derived; [lia|exact H2|exact H3].
  - rewrite (result_agree _ _ _ Hfa_after_b).
    unfold Futures.result. rewrite H1. reflexivity.
  - apply set_result_reaches_derived; [lia|congruence|congruence].
  - rewrite (result_agree _ (Futures.set_result (S (S n)) rb (heap cB))
               (S (S (S n)))).
    + apply set_result_reaches_derived; [lia|exact H2|exact H3].
    + apply (set_result_frame _ n (S n) handle_response); [|lia|lia].
      congruence.
Qed.

Lemma sender_writes_in_queue_order_witness :
  exists c',
    _start_sender (2 + 3)
      (Examples.conn_queued (queue_of Examples.two_requests))
    = (c', Waiting) /\
    _outstanding c' = [] /\
    _id_counter c' = (0 + 2)%Z /\
    trace c' = [] ++ frames_of 0 Examples.two_requests /\
    heap c' = [] /\
    (forall i r,
       Examples.two_requests !! i = Some r ->
       _futures c' !! (0 + 1 + Z.of_nat i)%Z = Some (snd r)) /\
    (forall k, (k <= 0)%Z -> _futures c' !! k = (∅ : gmap Z nat) !! k).
Proof.
  apply (sender_writes_in_queue_order
           (Examples.conn_queued (queue_of Examples.two_requests))
           Examples.two_requests 3).
  - discriminate.
  - reflexivity.
  - reflexivity.
Defined.

Lemma sender_stops_at_poison_witness :
  exists c',
    _start_sender (1 + 1)
      (Examples.conn_queued
         (queue_of [(mkCallRequest [Byte.x61] [] [], 0)]
          ++ None :: queue_of [(mkCallRequest [Byte.x62] [] [], 1)]))
    = (c', Ok tt) /\
    _outstanding c' = queue_of [(mkCallRequest [Byte.x62] [] [], 1)] /\
    _id_counter c' = (0 + 1)%Z /\
    trace c' = [] ++ frames_of 0 [(mkCallRequest [Byte.x61] [] [], 0)].
Proof.
  apply (sender_stops_at_poison
           (Examples.conn_queued
              (queue_of [(mkCallRequest [Byte.x61] [] [], 0)]
               ++ None :: queue_of [(mkCallRequest [Byte.x62] [] [], 1)]))
           [(mkCallRequest [Byte.x61] [] [], 0)]
           (queue_of [(mkCallRequest [Byte.x62] [] [], 1)]) 0).
  - discriminate.
  - reflexivity.
  - reflexivity.
Defined.

Lemma receiver_survives_timeouts_only_witness :
  _start_receiver 1
    (Examples.conn_wired [InRaise (SocketError "Connection reset by peer")])
  = (Examples.conn_wired [], Raise (SocketError "Connection reset by peer")) /\
  _start_receiver 1
    (Examples.conn_wired
       [InEndOfStream; InFrame 1 (Examples.response_efg 0)])
  = (Examples.conn_wired
       [InEndOfStream; InFrame 1 (Examples.response_efg 0)], Ok tt) /\
  _start_receiver 2 (Examples.conn_wired [InRaise SocketTimeout])
  = _start_receiver 1 (Examples.conn_wired []).
Proof.
  split; [|split].
  - apply (proj1 (proj2 (receiver_survives_timeouts_only
                           (Examples.conn_wired
                              [InRaise
                                 (SocketError "Connection reset by peer")])
                           [] 0 ltac:(discriminate) eq_refl))).
    + reflexivity.
    + reflexivity.
  - apply (proj2 (proj2 (receiver_survives_timeouts_only
                           (Examples.conn_wired
                              [InEndOfStream;
                               InFrame 1 (Examples.response_efg 0)])
                           [InFrame 1 (Examples.response_efg 0)] 0
                           ltac:(discriminate) eq_refl))).
    reflexivity.
  - apply (proj1 (receiver_survives_timeouts_only
                    (Examples.conn_wired [InRaise SocketTimeout])
                    [] 1 ltac:(discriminate) eq_refl)).
    reflexivity.
Defined.

Lemma responses_routed_by_identifier_witness :
  exists cA cB c3,
    send [Byte.x61] [] [] None true (fun x => x) Examples.conn_ready
    = (cA, Ok (Deferred 1)) /\
    send [Byte.x62] [] [] None true (fun x => x) cA
    = (cB, Ok (Deferred 3)) /\
    c3 = with_sock
           (with_rx [InFrame 2 (Examples.response_efg 0);
                     InFrame 1 (Examples.response_efg 1)])
           (fst (_start_sender 2 cB)) /\
    Futures.result 3 (heap (fst (_start_receiver 1 c3)))
    = handle_response (Examples.response_efg 0) /\
    Futures.result 1 (heap (fst (_start_receiver 1 c3))) = Waiting /\
    Futures.result 1 (heap (fst (_start_receiver 2 c3)))
    = handle_response (Examples.response_efg 1) /\
    Futures.result 3 (heap (fst (_start_receiver 2 c3)))
    = handle_response (Examples.response_efg 0).
Proof.
  apply (responses_routed_by_identifier Examples.conn_ready
           [Byte.x61] [] [] [Byte.x62] [] []
           (Examples.response_efg 1) (Examples.response_efg 0)).
  - reflexivity.
  - reflexivity.
  - reflexivity.
  - reflexivity.
Defined.

(** ** What the loops keep *)

(** What every round keeps, the loop keeps. *)
Lemma while_not_closed_keeps (R : conn -> conn -> Prop) (body : M conn ctl) :
  (forall c, R c c) ->
  (forall a b c, R a b -> R b c -> R a c) ->
  (forall c, R c (fst (body c))) ->
  forall fuel c, R c (fst (while_not_closed fuel body c)).
Proof.
  intros Hrefl Htrans Hbody. induction fuel as [|n IH]; intros c; simpl;
    unfold bind, closed, gets;
    destruct (State.eqb (_state c) State.closed); simpl; auto.
  pose proof (Hbody c) as Hc.
  destruct (body c) as [c' [[|]|e|]]; simpl in *; auto.
  eapply Htrans; [exact Hc|apply IH].
Qed.

Lemma sender_body_cases (c : conn) :
  fst (sender_body c) = c \/
  (exists x rest, _outstanding c = x :: rest /\
     fst (sender_body c) = with_outstanding rest c) \/
  (exists request msg rest,
     _outstanding c = Some request :: rest /\
     message request = Some msg /\
     fst (sender_body c)
     = mkConn (_name c) (_sock c) (_state c) rest (_on_close c)
         (_id_counter c + 1)%Z
         (<[(_id_counter c + 1)%Z := future request]> (_futures c)) (heap c)
         (trace c ++ [EvFrameAndWrite msg (_id_counter c + 1)%Z])).
Proof.
  destruct (_outstanding c) as [|[request|] rest] eqn:Hq.
  - left. rewrite sender_body_empty by exact Hq. reflexivity.
  - destruct (message request) as [msg|] eqn:Hmsg.
    + right. right. exists request, msg, rest.
      rewrite (sender_body_request c request msg rest Hq Hmsg).
      auto.
    + right. left. exists (Some request), rest. split; [reflexivity|].
      unfold sender_body, queue_get. monad. rewrite Hq. simpl.
      rewrite Hmsg. reflexivity.
  - right. left. exists None, rest. split; [reflexivity|].
    unfold sender_body, queue_get. monad. rewrite Hq. reflexivity.
Qed.

Lemma receiver_body_cases (c : conn) :
  exists sk h,
    fst (receiver_body c)
    = with_heap h (with_sock (fun _ => sk) c).
Proof.
  unfold receiver_body, await. monad.
  destruct (sock_open (_sock c)); simpl.
  - destruct (rx (_sock c)) as [|[i m| |e] rest]; simpl.
    + exists (_sock c), (heap c). destruct c; reflexivity.
    + destruct (_futures c !! i); simpl; eexists _, _; reflexivity.
    + exists (_sock c), (heap c). destruct c; reflexivity.
    + destruct (is_socket_timeout e); simpl; eexists _, _; reflexivity.
  - exists (_sock c), (heap c). destruct c; reflexivity.
Qed.

(** X6: neither loop ever assigns the state, and [send] in deferred mode does
    not either; [handshake] changes it only from [init] to [ready], and only
    when the peer has acknowledged.  In particular none of them reopens a
    closed connection. *)
Theorem state_moves_only_forward (c : conn) :
  (forall fuel, _state (fst (_start_sender fuel c)) = _state c) /\
  (forall fuel, _state (fst (_start_receiver fuel c)) = _state c) /\
  (forall arg1 arg2 arg3 service during,
     _state (fst (send arg1 arg2 arg3 service true during c)) = _state c) /\
  (_state (fst (handshake c)) = _state c \/
   _state c = State.init /\
   _state (fst (handshake c)) = State.ready /\
   snd (handshake c) = Ok (Some InitResponse)).
Proof.
  split; [|split; [|split]].
  - intros fuel.
    apply (while_not_closed_keeps (fun a b => _state b = _state a)
             sender_body); [auto|congruence|].
    intros c0.
    destruct (sender_body_cases c0)
      as [-> | [(x & rest & _ & ->) | (rq & msg & rest & _ & _ & ->)]];
      reflexivity.
  - intros fuel.
    apply (while_not_closed_keeps (fun a b => _state b = _state a)
             receiver_body); [auto|congruence|].
    intros c0. destruct (receiver_body_cases c0) as (sk & h & ->).
    reflexivity.
  - intros arg1 arg2 arg3 service during.
    destruct (_state c) eqn:Hstate.
    + unfold send. monad. rewrite Hstate. simpl. exact Hstate.
    + rewrite send_deferred_eq by exact Hstate. simpl. exact Hstate.
    + unfold send. monad. rewrite Hstate. simpl. exact Hstate.
  - unfold handshake, initiate_handshake, await_handshake_reply, set_state,
      log.
    monad. destruct (_state c) eqn:Hstate; simpl.
    + destruct (initiate_raises (_sock c)); simpl; [left; exact Hstate|].
      destruct (reply_raises (_sock c)); simpl; [left; exact Hstate|].
      right. auto.
    + left. exact Hstate.
    + left. exact Hstate.
Qed.

(** X7: an entry of the pending-call table is never overwritten and never
    removed.  The sender hands out identifiers above every identifier in
    the table, so that whatever is queued and whatever the codec does, the
    entries the table had are there after it, with the same futures; the
    receiver does not touch the table, not even for the calls it resolves. *)
Theorem pending_entries_persist (c : conn) (fuel : nat) :
  (table_below_counter c ->
   table_below_counter (fst (_start_sender fuel c)) /\
   forall k fut,
     _futures c !! k = Some fut ->
     _futures (fst (_start_sender fuel c)) !! k = Some fut) /\
  _futures (fst (_start_receiver fuel c)) = _futures c.
Proof.
  split.
  - apply (while_not_closed_keeps
             (fun a b => table_below_counter a ->
                table_below_counter b /\
                forall k fut, _futures a !! k = Some fut ->
                              _futures b !! k = Some fut)
             sender_body).
    + auto.
    + intros x y z Hxy Hyz Hx. destruct (Hxy Hx) as [Hy Hkeep1].
      destruct (Hyz Hy) as [Hz Hkeep2]. auto.
    + intros c0 Hc0.
      destruct (sender_body_cases c0)
        as [-> | [(x & rest & _ & ->) | (rq & msg & rest & _ & _ & ->)]];
        [auto|auto|].
      split.
      * intros k fut Hk. simpl in *.
        apply lookup_insert_Some in Hk as [[<- _] | [_ Hk]]; [lia|].
        apply Hc0 in Hk. lia.
      * intros k fut Hk. simpl.
        rewrite lookup_insert_ne; [exact Hk|].
        apply Hc0 in Hk. lia.
  - apply (while_not_closed_keeps (fun a b => _futures b = _futures a)
             receiver_body); [auto|congruence|].
    intros c0. destruct (receiver_body_cases c0) as (sk & h & ->).
    reflexivity.
Qed.

Lemma pending_entries_persist_witness :
  (table_below_counter
     (fst (_start_sender 4
             (with_outstanding (queue_of Examples.two_requests)
                Examples.conn_one_pending))) /\
   forall k fut,
     _futures (with_outstanding (queue_of Examples.two_requests)
                 Examples.conn_one_pending) !! k = Some fut ->
     _futures (fst (_start_sender 4
                      (with_outstanding (queue_of Examples.two_requests)
                         Examples.conn_one_pending))) !! k = Some fut) /\
  _futures (fst (_start_receiver 4 Examples.conn_one_pending))
  = _futures Examples.conn_one_pending.
Proof.
  split.
  - apply (proj1 (pending_entries_persist
                    (with_outstanding (queue_of Examples.two_requests)
                       Examples.conn_one_pending) 4)).
    intros k fut Hk. simpl in Hk.
    apply lookup_insert_Some in Hk as [[<- _] | [_ Hk]].
    + simpl. lia.
    + rewrite lookup_empty in Hk. discriminate.
  - apply (proj2 (pending_entries_persist Examples.conn_one_pending 4)).
Defined.

(** ** The handshake *)

(** X8: on a connection in state [init]: when the peer acknowledges,
    [handshake] sends the placeholder address ["0.0.0.0:0"] with the process
    name, waits for the reply, moves to [ready] and returns the reply, and a
    further [handshake] is a no-op; when either call at the codec raises,
    the exception reaches the caller, the state is still [init], and [send]
    keeps refusing. *)
Theorem handshake_from_init (c : conn) :
  _state c = State.init ->
  (initiate_raises (_sock c) = None ->
   reply_raises (_sock c) = None ->
   exists c',
     handshake c = (c', Ok (Some InitResponse)) /\
     _state c' = State.ready /\
     trace c'
     = trace c ++ [EvInitiateHandshake "0.0.0.0:0" (_name c);
                   EvAwaitHandshakeReply; EvSetState State.ready] /\
     handshake c' = (c', Ok None)) /\
  (forall e,
     initiate_raises (_sock c) = Some e \/
     initiate_raises (_sock c) = None /\ reply_raises (_sock c) = Some e ->
     exists c',
       handshake c = (c', Raise e) /\
       _state c' = State.init /\
       forall arg1 arg2 arg3 service async during,
         send arg1 arg2 arg3 service async during c'
         = (c', Raise (AssertionError
                         "Handshake not performed or connection closed"))).
Proof.
  intros Hstate. split.
  - intros Hinit Hreply. eexists. split; [|split; [|split]].
    + unfold handshake, initiate_handshake, await_handshake_reply,
        set_state, log.
      monad. rewrite Hstate. simpl. rewrite Hinit. simpl.
      rewrite Hreply. simpl. reflexivity.
    + reflexivity.
    + simpl. rewrite <- !app_assoc. reflexivity.
    + reflexivity.
  - intros e He.
    assert (Hrefuses : forall c', _state c' = State.init ->
              forall arg1 arg2 arg3 service async during,
                send arg1 arg2 arg3 service async during c'
                = (c', Raise (AssertionError
                     "Handshake not performed or connection closed"))).
    { intros c' Hc' arg1 arg2 arg3 service async during.
      unfold send. monad. rewrite Hc'. reflexivity. }
    destruct He as [Hinit | [Hinit Hreply]].
    + eexists. split; [|split].
      * unfold handshake, initiate_handshake, log.
        monad. rewrite Hstate. simpl. rewrite Hinit. reflexivity.
      * exact Hstate.
      * apply Hrefuses. exact Hstate.
    + eexists. split; [|split].
      * unfold handshake, initiate_handshake, await_handshake_reply, log.
        monad. rewrite Hstate. simpl. rewrite Hinit. simpl.
        rewrite Hreply. reflexivity.
      * exact Hstate.
      * apply Hrefuses. exact Hstate.
Qed.

Lemma handshake_from_init_witness :
  (exists c',
     handshake Examples.conn_init = (c', Ok (Some InitResponse)) /\
     _state c' = State.ready /\
     trace c'
     = [] ++ [EvInitiateHandshake "0.0.0.0:0" "client";
              EvAwaitHandshakeReply; EvSetState State.ready] /\
     handshake c' = (c', Ok None)) /\
  (exists c',
     handshake (fresh "client" Examples.mute_socket CbIdentity)
     = (c', Raise SocketTimeout) /\
     _state c' = State.init /\
     forall arg1 arg2 arg3 service async during,
       send arg1 arg2 arg3 service async during c'
       = (c', Raise (AssertionError
                       "Handshake not performed or connection closed"))).
Proof.
  split.
  - apply (proj1 (handshake_from_init Examples.conn_init eq_refl)).
    + reflexivity.
    + reflexivity.
  - apply (proj2 (handshake_from_init
                    (fresh "client" Examples.mute_socket CbIdentity) eq_refl)
             SocketTimeout).
    right. split; reflexivity.
Defined.

Lemma send_round_trip_witness :
  snd (send [Byte.x61] [] [] None false (serve (Examples.response_efg 1))
         Examples.conn_ready)
  = (if (code (Examples.response_efg 1) =? 0)%Z
     then Ok (Returned (Examples.response_efg 1))
     else Raise (TChannelApplicationException
                   (code (Examples.response_efg 1))
                   (arg_1 (Examples.response_efg 1))
                   (arg_2 (Examples.response_efg 1))
                   (arg_3 (Examples.response_efg 1)))).
Proof.
  apply (send_round_trip Examples.conn_ready [Byte.x61] [] [] None
           (Examples.response_efg 1)).
  - reflexivity.
  - reflexivity.
  - reflexivity.
  - reflexivity.
Defined.

End LoopFacts.

(* ===================================================================== *)
(** * The pool in use *)
(* ===================================================================== *)

Module PoolFacts.
Import Registry.
Import Channel.
Import OutOpsFacts.
Import RegistryFacts.

Section Net.

Variable net : string -> Z -> nat -> exn + OutOps.Socket.

(** ** Getting a connection *)

(** The object the constructor returns when the peer acknowledges. *)
Lemma init_acknowledged name sock cb :
  OutOps.initiate_raises sock = None ->
  OutOps.reply_raises sock = None ->
  OutOps.__init__ name sock cb true
  = (OutOps.mkConn name sock OutOps.State.ready [] cb 0%Z ∅ []
       [OutOps.EvInitiateHandshake "0.0.0.0:0" name;
        OutOps.EvAwaitHandshakeReply;
        OutOps.EvSetState OutOps.State.ready],
     Ok tt).
Proof.
  intros Hinit Hreply.
  unfold OutOps.__init__, OutOps.handshake, OutOps.initiate_handshake,
    OutOps.await_handshake_reply, OutOps.set_state, OutOps.log, OutOps.fresh.
  monad. rewrite Hinit. simpl. rewrite Hreply. reflexivity.
Qed.

Lemma init_refused name sock cb e :
  OutOps.initiate_raises sock = Some e \/
  OutOps.initiate_raises sock = None /\ OutOps.reply_raises sock = Some e ->
  snd (OutOps.__init__ name sock cb true) = Raise e.
Proof.
  unfold OutOps.__init__, OutOps.handshake, OutOps.initiate_handshake,
    OutOps.await_handshake_reply, OutOps.set_state, OutOps.log, OutOps.fresh.
  monad. intros [Hinit | [Hinit Hreply]]; rewrite Hinit; simpl;
    [|rewrite Hreply]; reflexivity.
Qed.

Lemma open_socket_eq host port w :
  open_socket net host port w
  = (with_trace (trace w ++ [EvSocket (next_fileno w) host port])
       (with_next_fileno (S (next_fileno w)) w),
     match net host port (next_fileno w) with
     | inl e => Raise e
     | inr s => Ok (with_fileno (next_fileno w) s)
     end).
Proof.
  unfold open_socket, log. monad.
  destruct (net host port (next_fileno w)); reflexivity.
Qed.

Lemma fast_path_eq host port w :
  host <> "" -> port <> 0%Z ->
  fast_path host port w = (w, Ok (_connections w !! (host, port))).
Proof.
  intros Hhost Hport. apply String.eqb_neq in Hhost.
  apply Z.eqb_neq in Hport.
  unfold fast_path. monad. rewrite Hhost. simpl. rewrite Hport. reflexivity.
Qed.

(** A hit on the fast path. *)
Lemma get_connection_hit host port w r :
  host <> "" -> port <> 0%Z ->
  _connections w !! (host, port) = Some r ->
  _get_connection net host port w = (w, Ok r).
Proof.
  intros Hhost Hport Hk. unfold _get_connection. unfold bind at 1.
  rewrite fast_path_eq by assumption. rewrite Hk. reflexivity.
Qed.

(** A miss on the fast path, uninterrupted. *)
Lemma get_connection_miss host port w :
  host <> "" -> port <> 0%Z ->
  _connections w !! (host, port) = None ->
  _get_connection net host port w
  = match net host port (next_fileno w) with
    | inl e =>
        (with_trace (trace w ++ [EvSocket (next_fileno w) host port])
           (with_next_fileno (S (next_fileno w)) w), Raise e)
    | inr s =>
        locked_section host port (with_fileno (next_fileno w) s)
          (with_trace (trace w ++ [EvSocket (next_fileno w) host port])
             (with_next_fileno (S (next_fileno w)) w))
    end.
Proof.
  intros Hhost Hport Hk. unfold _get_connection. unfold bind at 1.
  rewrite fast_path_eq by assumption. rewrite Hk.
  unfold bind. rewrite open_socket_eq.
  destruct (net host port (next_fileno w)); reflexivity.
Qed.

(** A miss, a network that connects and a peer that acknowledges. *)
Lemma get_connection_installs host port w sock :
  host <> "" -> port <> 0%Z ->
  _connections w !! (host, port) = None ->
  net host port (next_fileno w) = inr sock ->
  OutOps.initiate_raises sock = None ->
  OutOps.reply_raises sock = None ->
  _get_connection net host port w
  = (with_connections (<[(host, port) := length (objs w)]> (_connections w))
       (with_objs
          (objs w
           ++ [OutOps.mkConn (_name w) (with_fileno (next_fileno w) sock)
                 OutOps.State.ready [] (OutOps.CbEvict host port) 0%Z ∅ []
                 [OutOps.EvInitiateHandshake "0.0.0.0:0" (_name w);
                  OutOps.EvAwaitHandshakeReply;
                  OutOps.EvSetState OutOps.State.ready]])
          (with_trace (trace w ++ [EvSocket (next_fileno w) host port])
             (with_next_fileno (S (next_fileno w)) w))),
     Ok (length (objs w))).
Proof.
  intros Hhost Hport Hk Hnet Hinit Hreply.
  rewrite (get_connection_miss host port w Hhost Hport Hk), Hnet.
  rewrite locked_section_eq.
  cbn [_connections _name objs with_trace with_next_fileno].
  rewrite Hk. rewrite init_acknowledged by assumption. reflexivity.
Qed.

(** X9: the first request for a destination opens one socket, builds one
    connection with the registry's process name, shakes hands, and installs
    the connection under the key; the connection is [ready] and carries the
    callback for that key.  A second request for the destination returns
    the same connection and changes nothing: no socket is opened. *)
Theorem get_connection_builds_once (host : string) (port : Z) (w : world)
    (sock : OutOps.Socket) :
  host <> "" -> port <> 0%Z ->
  _connections w !! (host, port) = None ->
  net host port (next_fileno w) = inr sock ->
  OutOps.initiate_raises sock = None ->
  OutOps.reply_raises sock = None ->
  exists w' c,
    _get_connection net host port w = (w', Ok (length (objs w))) /\
    objs w' = objs w ++ [c] /\
    _connections w' = <[(host, port) := length (objs w)]> (_connections w) /\
    trace w' = trace w ++ [EvSocket (next_fileno w) host port] /\
    OutOps._state c = OutOps.State.ready /\
    OutOps._on_close c = OutOps.CbEvict host port /\
    OutOps._name c = _name w /\
    _get_connection net host port w' = (w', Ok (length (objs w))).
Proof.
  intros Hhost Hport Hk Hnet Hinit Hreply.
  rewrite (get_connection_installs host port w sock) by assumption.
  eexists _, _. split; [reflexivity|].
  repeat split.
  apply get_connection_hit; [exact Hhost|exact Hport|].
  simpl. apply lookup_insert_eq.
Qed.

(** X10: a request that fails installs nothing, so that it does not stand in the
    way of the next one: an empty host or a port 0 is refused before
    anything is done; when connecting raises, or when the handshake in the
    constructor raises, the exception reaches the caller and the map and the
    store of connections are as before.  After a failed handshake the
    socket that was opened has not been closed. *)
Theorem get_connection_failure_installs_nothing (host : string) (port : Z)
    (w : world) :
  (host = "" ->
   _get_connection net host port w
   = (w, Raise (AssertionError "host is required"))) /\
  (host <> "" -> port = 0%Z ->
   _get_connection net host port w
   = (w, Raise (AssertionError "port is required"))) /\
  (host <> "" -> port <> 0%Z ->
   _connections w !! (host, port) = None ->
   forall e,
     net host port (next_fileno w) = inl e \/
     (exists sock,
        net host port (next_fileno w) = inr sock /\
        (OutOps.initiate_raises sock = Some e \/
         OutOps.initiate_raises sock = None /\
         OutOps.reply_raises sock = Some e)) ->
     exists w',
       _get_connection net host port w = (w', Raise e) /\
       _connections w' = _connections w /\
       objs w' = objs w /\
       trace w' = trace w ++ [EvSocket (next_fileno w) host port]).
Proof.
  split; [|split].
  - intros ->. reflexivity.
  - intros Hhost ->. apply String.eqb_neq in Hhost.
    unfold _get_connection, fast_path. monad. rewrite Hhost. reflexivity.
  - intros Hhost Hport Hk e He.
    rewrite (get_connection_miss host port w Hhost Hport Hk).
    destruct He as [Hnet | (sock & Hnet & Hraise)]; rewrite Hnet.
    + eexists. split; [reflexivity|]. repeat split.
    + rewrite locked_section_eq.
      cbn [_connections _name objs with_trace with_next_fileno]. rewrite Hk.
      pose proof (init_refused (_name w) (with_fileno (next_fileno w) sock)
                    (OutOps.CbEvict host port) e Hraise) as Hinit.
      destruct (OutOps.__init__ (_name w) (with_fileno (next_fileno w) sock)
                  (OutOps.CbEvict host port) true) as [c r].
      simpl in Hinit. subst r.
      eexists. split; [reflexivity|]. repeat split.
Qed.

(** ** Connections that close *)

(** X11: a pooled connection that closes leaves the map, and is not handed out
    again: the next request for its destination builds a new object, and
    the closed one stays closed. *)
Theorem closed_connection_is_replaced (host : string) (port : Z) (w : world)
    (r : nat) (c : OutOps.conn) (sock : OutOps.Socket) :
  host <> "" -> port <> 0%Z ->
  _connections w !! (host, port) = Some r ->
  objs w !! r = Some c ->
  OutOps._state c <> OutOps.State.closed ->
  OutOps._on_close c = OutOps.CbEvict host port ->
  OutOps.close_raises (OutOps._sock c) = None ->
  net host port (next_fileno w) = inr sock ->
  OutOps.initiate_raises sock = None ->
  OutOps.reply_raises sock = None ->
  exists w1 w2 c2,
    conn_close r w = (w1, Ok tt) /\
    _connections w1 !! (host, port) = None /\
    closed_in w1 r /\
    _get_connection net host port w1 = (w2, Ok (length (objs w))) /\
    length (objs w) <> r /\
    _connections w2 !! (host, port) = Some (length (objs w)) /\
    objs w2 !! length (objs w) = Some c2 /\
    OutOps._state c2 = OutOps.State.ready /\
    closed_in w2 r.
Proof.
  intros Hhost Hport Hk Hr Hopen Hcb Hclose Hnet Hinit Hreply.
  assert (Hlt : r < length (objs w)) by (eapply lookup_lt_Some; eauto).
  rewrite (conn_close_completes w r c Hr Hopen Hclose), Hcb.
  unfold call_on_close, _on_conn_close. monad.
  rewrite Hk, Nat.eqb_refl. simpl.
  match goal with
  | |- context [(?x, Ok tt) = (_, Ok tt)] => set (w1 := x)
  end.
  assert (Hlen1 : length (objs w1) = length (objs w)).
  { unfold w1. simpl. apply length_insert. }
  assert (Hclosed1 : closed_in w1 r).
  { eexists. unfold w1. simpl.
    rewrite list_lookup_insert_eq by exact Hlt. split; reflexivity. }
  assert (Hfree : _connections w1 !! (host, port) = None).
  { unfold w1. simpl. apply lookup_delete_eq. }
  exists w1. eexists _, _.
  split; [reflexivity|]. split; [exact Hfree|]. split; [exact Hclosed1|].
  split.
  { rewrite (get_connection_installs host port w1 sock);
      [|assumption|assumption|exact Hfree|exact Hnet|assumption|assumption].
    rewrite Hlen1. reflexivity. }
  split; [lia|]. split; [simpl; apply lookup_insert_eq|].
  split.
  { cbn [objs with_connections with_objs]. rewrite <- Hlen1.
    apply list_lookup_middle. reflexivity. }
  split; [reflexivity|].
  destruct Hclosed1 as (c1 & Hc1 & Hst1). exists c1. split; [|exact Hst1].
  simpl. apply lookup_app_l_Some. exact Hc1.
Qed.

(** X12: a pooled connection whose socket raises on [close()] is closed and
    stays in the map: its callback never runs, a further [close] does
    nothing, and every later request for its destination is handed the
    closed connection, on which [send] raises the assertion error. *)
Theorem unclosable_connection_stays_mapped (host : string) (port : Z)
    (w : world) (r : nat) (c : OutOps.conn) (e : exn) :
  host <> "" -> port <> 0%Z ->
  _connections w !! (host, port) = Some r ->
  objs w !! r = Some c ->
  OutOps._state c <> OutOps.State.closed ->
  OutOps.close_raises (OutOps._sock c) = Some e ->
  exists w1,
    conn_close r w = (w1, Raise e) /\
    _connections w1 = _connections w /\
    closed_in w1 r /\
    conn_close r w1 = (w1, Ok tt) /\
    _get_connection net host port w1 = (w1, Ok r) /\
    forall arg1 arg2 arg3 service async during,
      with_self r (OutOps.send arg1 arg2 arg3 service async during) w1
      = (w1, Raise (AssertionError
                      "Handshake not performed or connection closed")).
Proof.
  intros Hhost Hport Hk Hr Hopen Hclose.
  assert (Hlt : r < length (objs w)) by (eapply lookup_lt_Some; eauto).
  rewrite (conn_close_raises w r c e Hr Hopen Hclose).
  set (c1 := OutOps.shut_down (OutOps._sock c) [] c).
  set (w1 := with_objs (<[r := c1]> (objs w)) w).
  assert (Hr1 : objs w1 !! r = Some c1).
  { unfold w1. simpl. apply list_lookup_insert_eq. exact Hlt. }
  exists w1. split; [reflexivity|]. split; [reflexivity|].
  split; [exists c1; auto|].
  split; [apply (conn_close_closed w1 r c1 Hr1 eq_refl)|].
  split; [apply get_connection_hit; assumption|].
  intros arg1 arg2 arg3 service async during.
  erewrite with_self_run; [|exact Hr1|reflexivity].
  rewrite list_insert_id by exact Hr1. rewrite with_objs_same. reflexivity.
Qed.

End Net.

(** ** Closing the pool *)

(** In a consistent store a connection sits under one key only. *)
Lemma consistent_one_key (w : world) k1 k2 r :
  consistent w ->
  _connections w !! k1 = Some r ->
  _connections w !! k2 = Some r ->
  k1 = k2.
Proof.
  intros [Hmapped _] H1 H2. destruct k1 as [h1 p1], k2 as [h2 p2].
  destruct (Hmapped h1 p1 r H1) as (c1 & Hc1 & Hcb1).
  destruct (Hmapped h2 p2 r H2) as (c2 & Hc2 & Hcb2).
  congruence.
Qed.

Lemma close_each_empties (conns : list nat) : forall w,
  consistent w ->
  NoDup conns ->
  (forall r, r ∈ conns <-> exists k, _connections w !! k = Some r) ->
  (forall k r,
     _connections w !! k = Some r ->
     exists c,
       objs w !! r = Some c /\
       OutOps._state c <> OutOps.State.closed /\
       OutOps.close_raises (OutOps._sock c) = None) ->
  _connections (fst (close_each conns w)) = ∅.
Proof.
  induction conns as [|r0 rest IH]; intros w Hw Hnodup Hconns Hclean.
  - simpl. apply map_empty. intros k.
    destruct (_connections w !! k) as [r|] eqn:Hk; [|reflexivity].
    assert (Hin : r ∈ []) by (apply Hconns; eauto). inversion Hin.
  - apply NoDup_cons in Hnodup as [Hfresh Hnodup].
    destruct (proj1 (Hconns r0)) as ([h0 p0] & Hk0); [left|].
    destruct (Hclean _ _ Hk0) as (c0 & Hr0 & Hopen0 & Hclose0).
    assert (Hcb0 : OutOps._on_close c0 = OutOps.CbEvict h0 p0).
    { destruct Hw as [Hmapped _].
      destruct (Hmapped h0 p0 r0 Hk0) as (c & Hc & Hcb). congruence. }
    assert (Hlt : r0 < length (objs w)) by (eapply lookup_lt_Some; eauto).
    set (c1 := OutOps.shut_down
                 (OutOps.with_sock_open false (OutOps._sock c0))
                 [OutOps.EvJoinReceiver; OutOps.EvOnClose] c0).
    set (w1 := with_connections (delete (h0, p0) (_connections w))
                 (with_objs (<[r0 := c1]> (objs w)) w)).
    assert (Hstep : try_except (conn_close r0) is_socket_error (ret tt) w
                    = (w1, Ok tt)).
    { unfold try_except.
      rewrite (conn_close_completes w r0 c0 Hr0 Hopen0 Hclose0), Hcb0.
      unfold call_on_close, _on_conn_close. monad.
      rewrite Hk0, Nat.eqb_refl. reflexivity. }
    simpl. unfold bind at 1. rewrite Hstep.
    apply IH; clear IH.
    + apply (consistent_evict (with_objs (<[r0 := c1]> (objs w)) w)
               h0 p0 r0); [exact Hk0| |].
      * exists c1. simpl. rewrite list_lookup_insert_eq by exact Hlt. auto.
      * eapply consistent_replace; eauto.
    + exact Hnodup.
    + intros r. simpl. split.
      * intros Hin.
        destruct (proj1 (Hconns r)) as (k & Hk); [right; exact Hin|].
        exists k. rewrite lookup_delete_ne; [exact Hk|].
        intros <-. rewrite Hk0 in Hk. injection Hk as <-. contradiction.
      * intros (k & Hk). apply lookup_delete_Some in Hk as [Hne Hk].
        assert (Hin : r ∈ r0 :: rest) by (apply Hconns; eauto).
        apply elem_of_cons in Hin as [-> | Hin]; [|exact Hin].
        exfalso. apply Hne. eapply consistent_one_key; eauto.
    + intros k r Hk. simpl in Hk.
      apply lookup_delete_Some in Hk as [Hne Hk].
      destruct (Hclean k r Hk) as (c & Hr & Hopen & Hclose).
      exists c. split; [|auto]. simpl.
      rewrite list_lookup_insert_ne; [exact Hr|].
      intros <-. apply Hne. eapply consistent_one_key; eauto.
Qed.

(** X13: [close] on a registry whose connections are open and whose sockets
    close without raising closes each connection and, through the
    callbacks, empties the map; it returns, and a second [close] then has
    nothing to do. *)
Theorem registry_close_empties_pool (w : world) :
  consistent w ->
  (forall k r,
     _connections w !! k = Some r ->
     exists c,
       objs w !! r = Some c /\
       OutOps._state c <> OutOps.State.closed /\
       OutOps.close_raises (OutOps._sock c) = None) ->
  exists w',
    close w = (w', Ok tt) /\
    _connections w' = ∅ /\
    (forall k r, _connections w !! k = Some r -> closed_in w' r) /\
    close w' = (w', Ok tt).
Proof.
  intros Hw Hclean.
  set (conns := (map_to_list (_connections w)).*2).
  assert (Hconns : forall r, r ∈ conns <->
                     exists k, _connections w !! k = Some r).
  { intros r. unfold conns. rewrite list_elem_of_fmap. split.
    - intros ([k r'] & -> & Hin). exists k.
      apply elem_of_map_to_list. exact Hin.
    - intros (k & Hk). exists (k, r). split; [reflexivity|].
      apply elem_of_map_to_list. exact Hk. }
  assert (Hnodup : NoDup conns).
  { unfold conns. apply NoDup_fmap_2_strong; [|apply NoDup_map_to_list].
    intros [k1 r1] [k2 r2] H1 H2 Heq. simpl in Heq. subst r2.
    apply elem_of_map_to_list in H1, H2.
    f_equal. eapply consistent_one_key; eauto. }
  destruct (close_each_closes conns w) as (w' & Hrun & Hclosed & _).
  { intros r Hr. apply Hconns in Hr as (k & Hk).
    destruct (Hclean k r Hk) as (c & Hc & _ & Hclose).
    exists c. split; [exact Hc|]. intros _ e He. congruence. }
  pose proof (close_each_empties conns w Hw Hnodup Hconns Hclean) as Hempty.
  rewrite Hrun in Hempty. simpl in Hempty.
  exists w'. split; [unfold close; monad; exact Hrun|].
  split; [exact Hempty|]. split.
  - intros k r Hk. apply Hclosed. apply Hconns. eauto.
  - unfold close. monad. rewrite Hempty, map_to_list_empty. reflexivity.
Qed.

(** ** Leaving the [with] block, and the destructors *)

Lemma conn_close_ends (self : nat) (w : world) :
  snd (conn_close self w) <> Waiting.
Proof.
  destruct (objs w !! self) as [c|] eqn:Hself.
  - destruct (decide (OutOps._state c = OutOps.State.closed)) as [Hc|Hopen].
    + rewrite (conn_close_closed w self c Hself Hc). discriminate.
    + destruct (OutOps.close_raises (OutOps._sock c)) as [e|] eqn:Hraise.
      * rewrite (conn_close_raises w self c e Hself Hopen Hraise).
        discriminate.
      * rewrite (conn_close_completes w self c Hself Hopen Hraise).
        destruct (call_on_close_returns (OutOps._on_close c) self
                    (with_objs
                       (<[self := OutOps.shut_down
                                    (OutOps.with_sock_open false
                                       (OutOps._sock c))
                                    [OutOps.EvJoinReceiver; OutOps.EvOnClose]
                                    c]> (objs w)) w)) as (conns & -> & _).
        discriminate.
  - unfold conn_close, with_self, bind. rewrite Hself. discriminate.
Qed.

Lemma close_each_ends (conns : list nat) : forall w,
  snd (close_each conns w) <> Waiting.
Proof.
  induction conns as [|r rest IH]; intros w; simpl; [discriminate|].
  unfold bind at 1, try_except.
  pose proof (conn_close_ends r w) as Hr.
  destruct (conn_close r w) as [w1 [[]|e|]]; simpl in *.
  - apply IH.
  - destruct (is_socket_error e); simpl; [apply IH|discriminate].
  - contradiction.
Qed.

(** What [close] does to a registry whose sockets raise nothing but
    [socket.error]. *)
Lemma close_closes (w : world) :
  (forall k r,
     _connections w !! k = Some r ->
     exists c,
       objs w !! r = Some c /\
       (OutOps._state c <> OutOps.State.closed ->
        raises_only_socket_errors c)) ->
  exists w',
    close w = (w', Ok tt) /\
    forall k r, _connections w !! k = Some r -> closed_in w' r.
Proof.
  intros Hmapped.
  destruct (close_each_closes ((map_to_list (_connections w)).*2) w)
    as (w' & Hrun & Hclosed & _).
  { intros r Hr. apply list_elem_of_fmap in Hr as ([k r'] & -> & Hin).
    apply elem_of_map_to_list in Hin. eauto. }
  exists w'. split; [unfold close; monad; exact Hrun|].
  intros k r Hk. apply Hclosed. apply list_elem_of_fmap.
  exists (k, r). split; [reflexivity|]. apply elem_of_map_to_list. exact Hk.
Qed.

(** X14: leaving the [with] block closes every connection the registry holds at
    that point, whether the body returned or raised, and then hands on what
    the body returned or raised (the sockets raising nothing but
    [socket.error] when closed). *)
Theorem with_block_closes_the_pool {A} (body : M world A) (w w1 : world)
    (r : res A) :
  body w = (w1, r) ->
  r <> Waiting ->
  (forall k x,
     _connections w1 !! k = Some x ->
     exists c,
       objs w1 !! x = Some c /\
       (OutOps._state c <> OutOps.State.closed ->
        raises_only_socket_errors c)) ->
  exists w2,
    with_channel body w = (w2, r) /\
    forall k x, _connections w1 !! k = Some x -> closed_in w2 x.
Proof.
  intros Hbody Hr Hmapped.
  destruct (close_closes w1 Hmapped) as (w2 & Hclose & Hclosed).
  exists w2. split; [|exact Hclosed].
  unfold with_channel, __exit__. rewrite Hbody.
  destruct r as [a|e|]; [rewrite Hclose; reflexivity
                        |rewrite Hclose; reflexivity|contradiction].
Qed.

(** X15: the destructors never raise, whatever the sockets do: [__del__] of a
    connection swallows what [close] raises and leaves the connection
    closed, and [__del__] of the registry swallows what the registry's
    [close] lets through. *)
Theorem destructors_never_raise (w : world) :
  snd (__del__ w) = Ok tt /\
  (forall self, snd (conn_del self w) = Ok tt) /\
  (forall self c,
     objs w !! self = Some c -> closed_in (fst (conn_del self w)) self).
Proof.
  split; [|split].
  - unfold __del__, try_except, close. monad.
    pose proof (close_each_ends ((map_to_list (_connections w)).*2) w) as H.
    destruct (close_each _ w) as [w' [[]|e|]]; simpl in *;
      [reflexivity|reflexivity|contradiction].
  - intros self. unfold conn_del, try_except.
    pose proof (conn_close_ends self w) as H.
    destruct (conn_close self w) as [w' [[]|e|]]; simpl in *;
      [reflexivity|reflexivity|contradiction].
  - intros self c Hself.
    assert (Hlt : self < length (objs w)) by (eapply lookup_lt_Some; eauto).
    unfold conn_del, try_except.
    destruct (decide (OutOps._state c = OutOps.State.closed)) as [Hc|Hopen].
    + rewrite (conn_close_closed w self c Hself Hc). exists c. auto.
    + destruct (OutOps.close_raises (OutOps._sock c)) as [e|] eqn:Hraise.
      * rewrite (conn_close_raises w self c e Hself Hopen Hraise). simpl.
        eexists. simpl. rewrite list_lookup_insert_eq by exact Hlt.
        split; reflexivity.
      * rewrite (conn_close_completes w self c Hself Hopen Hraise).
        destruct (call_on_close_returns (OutOps._on_close c) self
                    (with_objs
                       (<[self := OutOps.shut_down
                                    (OutOps.with_sock_open false
                                       (OutOps._sock c))
                                    [OutOps.EvJoinReceiver; OutOps.EvOnClose]
                                    c]> (objs w)) w)) as (conns & -> & _).
        simpl. eexists. simpl. rewrite list_lookup_insert_eq by exact Hlt.
        split; reflexivity.
Qed.

(** ** The theorems above on concrete registries *)

Lemma get_connection_builds_once_witness :
  exists w' c,
    _get_connection Examples.calm_net "localhost" 4040 Examples.empty_world
    = (w', Ok 0) /\
    objs w' = [] ++ [c] /\
    _connections w' = <[("localhost", 4040%Z) := 0]> ∅ /\
    trace w' = [] ++ [EvSocket 0 "localhost" 4040] /\
    OutOps._state c = OutOps.State.ready /\
    OutOps._on_close c = OutOps.CbEvict "localhost" 4040 /\
    OutOps._name c = "client" /\
    _get_connection Examples.calm_net "localhost" 4040 w' = (w', Ok 0).
Proof.
  apply (get_connection_builds_once Examples.calm_net "localhost" 4040%Z
           Examples.empty_world Examples.quiet_socket).
  - discriminate.
  - discriminate.
  - reflexivity.
  - reflexivity.
  - reflexivity.
  - reflexivity.
Defined.

Lemma get_connection_failure_installs_nothing_witness :
  _get_connection Examples.calm_net "" 4040 Examples.empty_world
  = (Examples.empty_world, Raise (AssertionError "host is required")) /\
  _get_connection Examples.calm_net "localhost" 0 Examples.empty_world
  = (Examples.empty_world, Raise (AssertionError "port is required")) /\
  (exists w',
     _get_connection Examples.refusing_net "localhost" 4040
       Examples.empty_world
     = (w', Raise (SocketError "Connection refused")) /\
     _connections w' = ∅ /\ objs w' = [] /\
     trace w' = [] ++ [EvSocket 0 "localhost" 4040]) /\
  (exists w',
     _get_connection Examples.mute_net "localhost" 4040 Examples.empty_world
     = (w', Raise SocketTimeout) /\
     _connections w' = ∅ /\ objs w' = [] /\
     trace w' = [] ++ [EvSocket 0 "localhost" 4040]).
Proof.
  split; [|split; [|split]].
  - apply (proj1 (get_connection_failure_installs_nothing Examples.calm_net
                    "" 4040%Z Examples.empty_world)).
    reflexivity.
  - apply (proj1 (proj2 (get_connection_failure_installs_nothing
                           Examples.calm_net "localhost" 0%Z
                           Examples.empty_world))).
    + discriminate.
    + reflexivity.
  - apply (proj2 (proj2 (get_connection_failure_installs_nothing
                           Examples.refusing_net "localhost" 4040%Z
                           Examples.empty_world))).
    + discriminate.
    + discriminate.
    + reflexivity.
    + left. reflexivity.
  - apply (proj2 (proj2 (get_connection_failure_installs_nothing
                           Examples.mute_net "localhost" 4040%Z
                           Examples.empty_world))).
    + discriminate.
    + discriminate.
    + reflexivity.
    + right. exists Examples.mute_socket. split; [reflexivity|].
      right. split; reflexivity.
Defined.

Lemma closed_connection_is_replaced_witness :
  exists w1 w2 c2,
    conn_close 1 Examples.twin_world = (w1, Ok tt) /\
    _connections w1 !! ("localhost", 4040%Z) = None /\
    closed_in w1 1 /\
    _get_connection Examples.calm_net "localhost" 4040 w1 = (w2, Ok 2) /\
    2 <> 1 /\
    _connections w2 !! ("localhost", 4040%Z) = Some 2 /\
    objs w2 !! 2 = Some c2 /\
    OutOps._state c2 = OutOps.State.ready /\
    closed_in w2 1.
Proof.
  apply (closed_connection_is_replaced Examples.calm_net "localhost" 4040%Z
           Examples.twin_world 1 Examples.pooled Examples.quiet_socket).
  - discriminate.
  - discriminate.
  - reflexivity.
  - reflexivity.
  - discriminate.
  - reflexivity.
  - reflexivity.
  - reflexivity.
  - reflexivity.
  - reflexivity.
Defined.

Lemma unclosable_connection_stays_mapped_witness :
  exists w1,
    conn_close 0 Examples.world_with_closed
    = (w1, Raise (SocketError "Bad file descriptor")) /\
    _connections w1 = _connections Examples.world_with_closed /\
    closed_in w1 0 /\
    conn_close 0 w1 = (w1, Ok tt) /\
    _get_connection Examples.calm_net "localhost" 4040 w1 = (w1, Ok 0) /\
    forall arg1 arg2 arg3 service async during,
      with_self 0 (OutOps.send arg1 arg2 arg3 service async during) w1
      = (w1, Raise (AssertionError
                      "Handshake not performed or connection closed")).
Proof.
  apply (unclosable_connection_stays_mapped Examples.calm_net
           "localhost" 4040%Z Examples.world_with_closed 0
           (Examples.pooled_at 4040 Examples.stubborn_socket)
           (SocketError "Bad file descriptor")).
  - discriminate.
  - discriminate.
  - reflexivity.
  - reflexivity.
  - discriminate.
  - reflexivity.
Defined.

Lemma two_connections_consistent :
  consistent (Examples.world_of Examples.quiet_socket Examples.quiet_socket).
Proof.
  split.
  - intros host port r Hk. simpl in Hk.
    apply lookup_insert_Some in Hk as [[Heq <-] | [_ Hk]].
    + injection Heq as <- <-. eexists. split; reflexivity.
    + apply lookup_singleton_Some in Hk as [Heq <-].
      injection Heq as <- <-. eexists. split; reflexivity.
  - intros r c host port Hr Hcb Hopen.
    destruct r as [|[|r]]; simpl in Hr.
    + injection Hr as <-. simpl in Hcb. injection Hcb as <- <-. reflexivity.
    + injection Hr as <-. simpl in Hcb. injection Hcb as <- <-. reflexivity.
    + rewrite lookup_nil in Hr. discriminate.
Qed.

Lemma registry_close_empties_pool_witness :
  exists w',
    close (Examples.world_of Examples.quiet_socket Examples.quiet_socket)
    = (w', Ok tt) /\
    _connections w' = ∅ /\
    (forall k r,
       _connections
         (Examples.world_of Examples.quiet_socket Examples.quiet_socket)
         !! k = Some r ->
       closed_in w' r) /\
    close w' = (w', Ok tt).
Proof.
  apply (registry_close_empties_pool
           (Examples.world_of Examples.quiet_socket Examples.quiet_socket)
           two_connections_consistent).
  intros k r Hk. simpl in Hk.
  apply lookup_insert_Some in Hk as [[_ <-] | [_ Hk]].
  - eexists. split; [reflexivity|]. split; [discriminate|reflexivity].
  - apply lookup_singleton_Some in Hk as [_ <-].
    eexists. split; [reflexivity|]. split; [discriminate|reflexivity].
Defined.

Lemma with_block_closes_the_pool_witness :
  exists w2,
    with_channel Examples.failing_body Examples.empty_world
    = (w2, Raise (Exception "Boom")) /\
    forall k x,
      _connections (fst (Examples.failing_body Examples.empty_world)) !! k
      = Some x ->
      closed_in w2 x.
Proof.
  apply (with_block_closes_the_pool Examples.failing_body
           Examples.empty_world
           (fst (Examples.failing_body Examples.empty_world))
           (Raise (Exception "Boom"))).
  - reflexivity.
  - discriminate.
  - intros k x. unfold Examples.failing_body, bind.
    rewrite (get_connection_installs Examples.calm_net "localhost" 4040%Z
               Examples.empty_world Examples.quiet_socket)
      by (discriminate || reflexivity).
    simpl. intros Hk.
    apply lookup_insert_Some in Hk as [[_ <-] | [_ Hk]].
    + eexists. split; [reflexivity|]. intros _ e He. discriminate He.
    + rewrite lookup_empty in Hk. discriminate.
Defined.

Lemma destructors_never_raise_witness :
  snd (__del__ (Examples.world_of Examples.faulty_socket
                  Examples.faulty_socket)) = Ok tt /\
  snd (conn_del 0 (Examples.world_of Examples.faulty_socket
                     Examples.faulty_socket)) = Ok tt /\
  closed_in
    (fst (conn_del 0 (Examples.world_of Examples.faulty_socket
                        Examples.faulty_socket))) 0.
Proof.
  split; [|split].
  - apply (proj1 (destructors_never_raise
                    (Examples.world_of Examples.faulty_socket
                       Examples.faulty_socket))).
  - apply (proj1 (proj2 (destructors_never_raise
                           (Examples.world_of Examples.faulty_socket
                              Examples.faulty_socket)))).
  - apply (proj2 (proj2 (destructors_never_raise
                           (Examples.world_of Examples.faulty_socket
                              Examples.faulty_socket)))
             0 (Examples.pooled_at 4040 Examples.faulty_socket)).
    reflexivity.
Defined.

End PoolFacts.

(* ===================================================================== *)
(** * Destinations and module names *)
(* ===================================================================== *)

Module NameFacts.
Import Registry.
Import Channel.
Import OutOpsFacts.

(** ** Splitting at the last separator *)

Lemma rsplit_last_absent sep s :
  PyStr.contains sep s = false -> PyStr.rsplit_last sep s = None.
Proof.
  induction s as [|c s IH]; simpl; [reflexivity|].
  intros H. apply orb_false_iff in H as [Hc Hs].
  rewrite (IH Hs), Hc. reflexivity.
Qed.

Lemma rsplit_last_join sep a b :
  PyStr.contains sep b = false ->
  PyStr.rsplit_last sep (String.append a (String sep b)) = Some (a, b).
Proof.
  intros Hb. induction a as [|c a IH]; simpl.
  - rewrite (rsplit_last_absent sep b Hb), Ascii.eqb_refl. reflexivity.
  - rewrite IH. reflexivity.
Qed.

Lemma rsplit_last_found sep s a b :
  PyStr.rsplit_last sep s = Some (a, b) ->
  s = String.append a (String sep b) /\ PyStr.contains sep b = false.
Proof.
  revert a b. induction s as [|c s IH]; simpl; intros a b H; [discriminate|].
  destruct (PyStr.rsplit_last sep s) as [[a' b']|] eqn:Hs.
  - injection H as <- <-. destruct (IH a' b' eq_refl) as [-> Hb].
    auto.
  - destruct (Ascii.eqb c sep) eqn:Hc; [|discriminate].
    injection H as <- <-. apply Ascii.eqb_eq in Hc. subst c.
    split; [reflexivity|].
    clear IH. induction s as [|d s IH]; simpl in *; [reflexivity|].
    destruct (PyStr.rsplit_last sep s) as [[a' b']|]; [discriminate|].
    destruct (Ascii.eqb d sep); [discriminate|]. simpl. auto.
Qed.

Section Request.

Variable net : string -> Z -> nat -> exn + OutOps.Socket.
Variable py_int : string -> exn + Z.

(** X16: [request] with the destination as one string splits it at its last
    colon, so that the host may itself contain colons, and asks for a
    connection to that host and to the port [int] reads after the colon;
    what [int] raises reaches the caller.  A string without a colon raises
    [ValueError] and nothing is done.  A port given as a non-zero integer
    is used as it is, the host not being split; a port given as 0 counts as
    not given. *)
Theorem request_splits_at_last_colon :
  (forall host p n w,
     PyStr.contains ":" p = false ->
     py_int p = inr n ->
     request net py_int (String.append host (String ":" p)) NoPort w
     = _get_connection net host n w) /\
  (forall host p e w,
     PyStr.contains ":" p = false ->
     py_int p = inl e ->
     request net py_int (String.append host (String ":" p)) NoPort w
     = (w, Raise e)) /\
  (forall s w,
     PyStr.contains ":" s = false ->
     request net py_int s NoPort w = (w, Raise (Exception "ValueError"))) /\
  (forall host n w,
     n <> 0%Z ->
     request net py_int host (IntPort n) w = _get_connection net host n w) /\
  (forall host w,
     request net py_int host (IntPort 0) w = request net py_int host NoPort w).
Proof.
  split; [|split; [|split; [|split]]].
  - intros host p n w Hp Hint. unfold request, PyStr.rsplit1. simpl falsy.
    cbv iota. rewrite (rsplit_last_join ":" host p Hp).
    unfold bind, ret. simpl. rewrite Hint. reflexivity.
  - intros host p e w Hp Hint. unfold request, PyStr.rsplit1. simpl falsy.
    cbv iota. rewrite (rsplit_last_join ":" host p Hp).
    unfold bind, ret. simpl. rewrite Hint. reflexivity.
  - intros s w Hs. unfold request, PyStr.rsplit1. simpl falsy. cbv iota.
    rewrite (rsplit_last_absent ":" s Hs). reflexivity.
  - intros host n w Hn. apply Z.eqb_neq in Hn.
    unfold request. simpl falsy. rewrite Hn. reflexivity.
  - intros host w. reflexivity.
Qed.

End Request.

Lemma request_splits_at_last_colon_witness :
  request Examples.calm_net Examples.int_4040 "::1:4040" NoPort
    Examples.empty_world
  = _get_connection Examples.calm_net "::1" 4040 Examples.empty_world /\
  request Examples.calm_net Examples.int_4040 "localhost:http" NoPort
    Examples.empty_world
  = (Examples.empty_world, Raise (Exception "ValueError")) /\
  request Examples.calm_net Examples.int_4040 "localhost" NoPort
    Examples.empty_world
  = (Examples.empty_world, Raise (Exception "ValueError")) /\
  request Examples.calm_net Examples.int_4040 "localhost" (IntPort 4040)
    Examples.empty_world
  = _get_connection Examples.calm_net "localhost" 4040 Examples.empty_world.
Proof.
  split; [|split; [|split]].
  - apply (proj1 (request_splits_at_last_colon Examples.calm_net
                    Examples.int_4040) "::1" "4040" 4040%Z).
    + reflexivity.
    + reflexivity.
  - apply (proj1 (proj2 (request_splits_at_last_colon Examples.calm_net
                           Examples.int_4040)) "localhost" "http").
    + reflexivity.
    + reflexivity.
  - apply (proj1 (proj2 (proj2 (request_splits_at_last_colon
                                  Examples.calm_net Examples.int_4040)))).
    reflexivity.
  - apply (proj1 (proj2 (proj2 (proj2 (request_splits_at_last_colon
                                         Examples.calm_net
                                         Examples.int_4040))))).
    discriminate.
Defined.

(** ** Module names *)

(** X17: [get_module_name] returns the last component of a dotted name: what
    follows the last dot, or the whole name when it has no dot.  Its result
    never contains a dot, and the name is the result itself or ends with a
    dot followed by the result. *)
Theorem get_module_name_is_last_component (name : string) :
  PyStr.contains "." (Reflection.get_module_name name) = false /\
  (name = Reflection.get_module_name name \/
   exists package,
     name = String.append package
              (String "." (Reflection.get_module_name name))) /\
  (forall package,
     PyStr.contains "." name = false ->
     Reflection.get_module_name (String.append package (String "." name))
     = name) /\
  (PyStr.contains "." name = false ->
   Reflection.get_module_name name = name).
Proof.
  assert (Hplain : forall s, PyStr.contains "." s = false ->
                     Reflection.get_module_name s = s).
  { intros s Hs. unfold Reflection.get_module_name, PyStr.rsplit1.
    rewrite (rsplit_last_absent "." s Hs). reflexivity. }
  assert (Hlast : forall package s, PyStr.contains "." s = false ->
            Reflection.get_module_name
              (String.append package (String "." s)) = s).
  { intros package s Hs. unfold Reflection.get_module_name, PyStr.rsplit1.
    rewrite (rsplit_last_join "." package s Hs). reflexivity. }
  assert (Hshape :
            PyStr.contains "." (Reflection.get_module_name name) = false /\
            (name = Reflection.get_module_name name \/
             exists package,
               name = String.append package
                        (String "." (Reflection.get_module_name name)))).
  { destruct (PyStr.rsplit_last "." name) as [[a b]|] eqn:Hsplit.
    - destruct (rsplit_last_found "." name a b Hsplit) as [Hname Hb].
      assert (Hg : Reflection.get_module_name name = b).
      { rewrite Hname. apply Hlast. exact Hb. }
      rewrite Hg. split; [exact Hb|]. right. exists a. exact Hname.
    - assert (Hname : PyStr.contains "." name = false).
      { clear Hplain Hlast. induction name as [|c s IH]; simpl in *;
          [reflexivity|].
        destruct (PyStr.rsplit_last "." s) as [[a b]|]; [discriminate|].
        destruct (Ascii.eqb c "."); [discriminate|]. simpl. auto. }
      rewrite (Hplain name Hname).
      split; [exact Hname|]. left. reflexivity. }
  destruct Hshape as [Hnodot Hends].
  split; [exact Hnodot|]. split; [exact Hends|].
  split; [intros package; apply Hlast|apply Hplain].
Qed.

Lemma get_module_name_is_last_component_witness :
  Reflection.get_module_name "tchannel.thrift.reflection" = "reflection" /\
  Reflection.get_module_name "reflection" = "reflection".
Proof.
  split.
  - apply (proj1 (proj2 (proj2 (get_module_name_is_last_component
                                  "reflection"))) "tchannel.thrift").
    reflexivity.
  - apply (proj2 (proj2 (proj2 (get_module_name_is_last_component
                                  "reflection")))).
    reflexivity.
Defined.

End NameFacts.

(* ===================================================================== *)
(** * Callers racing for one destination *)
(* ===================================================================== *)

Module RaceFacts.
Import Registry.
Import Counting.
Import OutOpsFacts.
Import RegistryFacts.
Import PoolFacts.

Lemma sockets_held_insert (pool : list thread) (i : nat) (t t' : thread) :
  pool !! i = Some t ->
  sockets_held (<[i := t']> pool) + holds_socket t
  = sockets_held pool + holds_socket t'.
Proof.
  unfold sockets_held. revert i.
  induction pool as [|x pool IH]; intros i Hi; [discriminate|].
  destruct i as [|i]; simpl in *.
  - injection Hi as ->. lia.
  - specialize (IH i Hi). lia.
Qed.

Lemma sockets_opened_app t e :
  sockets_opened (t ++ [e])
  = sockets_opened t + (if is_socket e then 1 else 0).
Proof.
  unfold sockets_opened. rewrite List.filter_app, length_app. simpl.
  destruct (is_socket e); reflexivity.
Qed.

Lemma sockets_discarded_app t e :
  sockets_discarded (t ++ [e])
  = sockets_discarded t + (if is_discard e then 1 else 0).
Proof.
  unfold sockets_discarded. rewrite List.filter_app, length_app. simpl.
  destruct (is_discard e); reflexivity.
Qed.

Section Race.

Variable net : string -> Z -> nat -> exn + OutOps.Socket.
Variable host : string.
Variable port : Z.

Hypothesis host_given : host <> "".
Hypothesis port_given : port <> 0%Z.
Hypothesis net_behaves :
  forall n, exists s, net host port n = inr s /\ well_behaved s.

(** One step of a racing caller. *)
Lemma race_step (t : thread) (w : world) :
  racing_for host port t ->
  one_or_none host port w ->
  racing_for host port (snd (step net t w)) /\
  one_or_none host port (fst (step net t w)) /\
  sockets_opened (trace (fst (step net t w)))
  + length (objs w) + sockets_discarded (trace w) + holds_socket t
  = sockets_opened (trace w)
    + length (objs (fst (step net t w)))
    + sockets_discarded (trace (fst (step net t w)))
    + holds_socket (snd (step net t w)).
Proof.
  intros Ht Hw.
  destruct t as [h p|h p|h p s|r|r|r]; simpl in Ht; try contradiction.
  - destruct Ht as [-> ->]. unfold step, finish.
    rewrite fast_path_eq by assumption.
    destruct Hw as [[Hmap Hobjs] | [Hmap Hobjs]].
    + rewrite Hmap, lookup_empty. simpl. split; [auto|]. split; [left; auto|].
      lia.
    + rewrite Hmap. simpl. split; [reflexivity|]. split; [right; auto|]. lia.
  - destruct Ht as [-> ->]. unfold step, finish.
    rewrite open_socket_eq.
    destruct (net_behaves (next_fileno w)) as (s & -> & Hs).
    cbn [fst snd]. split; [simpl; auto|]. split.
    + destruct Hw as [[Hmap Hobjs] | [Hmap Hobjs]]; [left|right]; auto.
    + cbn [trace objs with_trace with_next_fileno holds_socket].
      rewrite sockets_opened_app, sockets_discarded_app. simpl. lia.
  - destruct Ht as (-> & -> & Hinit & Hreply & Hclose). unfold step, finish.
    rewrite locked_section_eq.
    destruct Hw as [[Hmap Hobjs] | [Hmap Hobjs]].
    + rewrite Hmap, lookup_empty.
      rewrite init_acknowledged by assumption. rewrite Hobjs.
      cbn [fst snd]. split; [reflexivity|]. split.
      * right. simpl. split; [apply lookup_insert_eq|reflexivity].
      * simpl. lia.
    + rewrite Hmap, Hclose. cbn [fst snd]. split; [reflexivity|]. split.
      * right. auto.
      * cbn [trace objs with_trace holds_socket returns].
        rewrite sockets_opened_app, sockets_discarded_app. simpl. lia.
  - unfold step. simpl. split; [exact Ht|]. split; [exact Hw|]. lia.
Qed.

(** Every schedule of racing callers. *)
Lemma race_run (schedule : list nat) : forall w pool,
  Forall (racing_for host port) pool ->
  one_or_none host port w ->
  Forall (racing_for host port) (snd (run net schedule w pool)) /\
  one_or_none host port (fst (run net schedule w pool)) /\
  sockets_opened (trace (fst (run net schedule w pool)))
  + length (objs w) + sockets_discarded (trace w) + sockets_held pool
  = sockets_opened (trace w)
    + length (objs (fst (run net schedule w pool)))
    + sockets_discarded (trace (fst (run net schedule w pool)))
    + sockets_held (snd (run net schedule w pool)).
Proof.
  induction schedule as [|i rest IH]; intros w pool Hpool Hw; simpl.
  - split; [exact Hpool|]. split; [exact Hw|]. lia.
  - destruct (pool !! i) as [t|] eqn:Hi.
    + assert (Ht : racing_for host port t).
      { rewrite Forall_lookup in Hpool. eapply Hpool; eauto. }
      destruct (race_step t w Ht Hw) as (Ht' & Hw' & Hcount).
      pose proof (sockets_held_insert pool i t (snd (step net t w)) Hi)
        as Hheld.
      destruct (step net t w) as [w' t']. cbn [fst snd] in *.
      destruct (IH w' (<[i := t']> pool)) as (Hpool'' & Hw'' & Hcount'').
      { apply Forall_insert; assumption. }
      { exact Hw'. }
      split; [exact Hpool''|]. split; [exact Hw''|]. lia.
    + apply IH; assumption.
Qed.

End Race.

(** X18: callers race for one destination on a registry that starts empty, on a
    network that connects, with a peer that acknowledges and sockets that
    close without raising.  Under every schedule at most one connection is
    ever built; every caller that has returned was handed that one
    connection; and of the sockets opened so far each one is owned by the
    connection, or has been discarded, or is held by a caller still waiting
    for the lock.  So once all callers have returned, all sockets but one
    have been closed. *)
Theorem racing_callers_build_one_connection
    (net : string -> Z -> nat -> exn + OutOps.Socket)
    (host : string) (port : Z) (name : string) (w0 : world)
    (callers : nat) (schedule : list nat) :
  host <> "" -> port <> 0%Z ->
  (forall n, exists s, net host port n = inr s /\ well_behaved s) ->
  __init__ name = Ok w0 ->
  let final := run net schedule w0 (replicate callers (Enter host port)) in
  length (objs (fst final)) <= 1 /\
  (forall i r, snd final !! i = Some (Done r) -> r = Ok (Some 0)) /\
  sockets_opened (trace (fst final))
  = length (objs (fst final))
    + sockets_discarded (trace (fst final))
    + sockets_held (snd final).
Proof.
  intros Hhost Hport Hnet Hinit final.
  assert (Hw0 : w0 = mkWorld name ∅ [] 0 []).
  { unfold __init__ in Hinit. destruct (String.eqb name ""); [discriminate|].
    injection Hinit as <-. reflexivity. }
  assert (Hheld0 : sockets_held (replicate callers (Enter host port)) = 0).
  { unfold sockets_held. induction callers; simpl; auto. }
  destruct (race_run net host port Hhost Hport Hnet schedule w0
              (replicate callers (Enter host port)))
    as (Hpool & Hw & Hcount).
  { apply Forall_replicate. simpl. auto. }
  { left. subst w0. auto. }
  fold final in Hpool, Hw, Hcount.
  rewrite Hheld0 in Hcount. subst w0. simpl in Hcount.
  split; [|split].
  - destruct Hw as [[_ ->] | [_ ->]]; simpl; lia.
  - intros i r Hi. rewrite Forall_lookup in Hpool.
    apply (Hpool i (Done r) Hi).
  - unfold sockets_opened, sockets_discarded in *. simpl in Hcount. lia.
Qed.

Lemma racing_callers_build_one_connection_witness :
  length (objs (fst (run Examples.calm_net Examples.round_robin
                       Examples.empty_world
                       (replicate 3 (Enter "localhost" 4040))))) <= 1 /\
  (forall i r,
     snd (run Examples.calm_net Examples.round_robin Examples.empty_world
            (replicate 3 (Enter "localhost" 4040))) !! i = Some (Done r) ->
     r = Ok (Some 0)) /\
  sockets_opened
    (trace (fst (run Examples.calm_net Examples.round_robin
                   Examples.empty_world
                   (replicate 3 (Enter "localhost" 4040)))))
  = length (objs (fst (run Examples.calm_net Examples.round_robin
                         Examples.empty_world
                         (replicate 3 (Enter "localhost" 4040)))))
    + sockets_discarded
        (trace (fst (run Examples.calm_net Examples.round_robin
                       Examples.empty_world
                       (replicate 3 (Enter "localhost" 4040)))))
    + sockets_held
        (snd (run Examples.calm_net Examples.round_robin
                Examples.empty_world
                (replicate 3 (Enter "localhost" 4040)))).
Proof.
  apply (racing_callers_build_one_connection Examples.calm_net
           "localhost" 4040%Z "client" Examples.empty_world 3
           Examples.round_robin).
  - discriminate.
  - discriminate.
  - intros n. exists Examples.quiet_socket.
    split; [reflexivity|]. repeat split.
  - reflexivity.
Defined.

End RaceFacts.

(* ===================================================================== *)
(** * Closing a connection whose threads are running *)
(* ===================================================================== *)

Module JoinFacts.
Import Registry.
Import Threads.
Import OutOpsFacts.
Import RegistryFacts.
Import LoopFacts.

(** The connection once [close] has set the state and queued the marker. *)
Lemma close_opening {A} (k : M OutOps.conn A) (c : OutOps.conn) :
  (OutOps.set_state OutOps.State.closed ;;; OutOps.queue_put None ;;; k) c
  = k (OutOps.mkConn (OutOps._name c) (OutOps._sock c) OutOps.State.closed
         (OutOps._outstanding c ++ [None]) (OutOps._on_close c)
         (OutOps._id_counter c) (OutOps._futures c) (OutOps.heap c)
         (OutOps.trace c
          ++ [OutOps.EvSetState OutOps.State.closed; OutOps.EvPut None])).
Proof.
  unfold OutOps.set_state, OutOps.queue_put, OutOps.log. monad.
  unfold OutOps.with_trace, OutOps.with_outstanding, OutOps.with_state. simpl.
  rewrite <- app_assoc. reflexivity.
Qed.










Lemma bind_ext {S A B} (m m' : M S A) (k k' : A -> M S B) (s : S) :
  (forall s, m s = m' s) ->
  (forall a s, k a s = k' a s) ->
  bind m k s = bind m' k' s.
Proof.
  intros Hm Hk. unfold bind. rewrite Hm.
  destruct (m' s) as [s' [a|e|]]; auto.
Qed.

Lemma with_self_ext {A} (self : nat) (m m' : M OutOps.conn A) (w : world) :
  (forall c, m c = m' c) -> with_self self m w = with_self self m' w.
Proof.
  intros Hm. unfold with_self.
  destruct (objs w !! self); [rewrite Hm|]; reflexivity.
Qed.

(** With both threads at the test of their loops the two [join()] calls
    find nothing left to wait for, and [close] is [Registry.conn_close]. *)
Lemma conn_close_at_test (fuel : nat) (self : nat) (w : world) :
  conn_close_at AtTest AtTest fuel self w = conn_close self w.
Proof.
  unfold conn_close_at, conn_close.
  apply bind_ext; [reflexivity|].
  intros [|] w1; [reflexivity|].
  apply bind_ext; [|reflexivity].
  intros w2. apply with_self_ext. intros c.
  rewrite !close_opening.
  unfold join_sender, join_receiver, join, resume, OutOps.join_sender,
    OutOps.join_receiver, OutOps.sock_close, OutOps.log.
  monad. rewrite loop_closed by reflexivity. simpl.
  destruct (OutOps.close_raises (OutOps._sock c)); simpl; [reflexivity|].
  rewrite loop_closed by reflexivity. reflexivity.
Qed.



End JoinFacts.
